(* ===== verification/_CoqProject ===== *)
-Q . S2P
Prelude.v
PaletteTranslator.v
FaceIdentifier.v
ScanOrchestrator.v
ScanSpec.v
Hsv.v
ColorClassifier.v
FaceSampler.v
CaptureSession.v
SolutionFormatter.v
Pipeline.v
