(* ===== verification/Prelude.v ===== *)
(** * A verification library for the Rubik's-cube scanner [src/RCsolver.py]

    The program is one Python script.  It samples a 3x3 grid of pixels
    from camera frames, classifies each pixel into one of six sticker
    colours, lets the operator capture and confirm a face, recognises the
    face by its centre sticker, collects the six faces, assembles the
    54-character facelet string, translates it into the solver's face
    letters, hands it to the external two-phase solver and prints the
    solver's move list as numbered human-readable steps.

    ** Parts of the program and how they interact

      detect_color            pixel (B,G,R) -> colour letter
      scan_single_face        camera loop: per frame, sample the grid
                              (draw overlays, detect_color per cell),
                              react to the key pressed
      identify_face_by_center centre letter -> face name
      flexible_cube_scanner   loop: one scan_single_face per attempt,
                              identify, de-duplicate, collect six faces;
                              assemble, colorconvert, solve, print
      colorconvert            scan palette -> solver palette
      convert_solution_to_readable / print_readable_solution
                              solver moves -> printed steps

    ** Files of this development (in dependency order)

    - [Prelude.v] (this file): the Python value semantics the model
      shares: exceptions as values ([py_exc], the [pyres] error monad and
      its notation [x <-! c ;; k] in [rc_scope]), Python dicts as
      association lists in insertion order ([dict_get], [dict_set],
      [dict_keys]), Python's negative-index rule ([py_index],
      [py_getitem]), numpy.uint8 wrap-around ([u8]), [str(int)],
      [''.join] and [sep.join] on strings that may hold [None]; the six
      sticker colours and their letters; the [rcsolver] hint database
      and the tactics [rc_decide], [rc_compute], [string_as_list].
    - [PaletteTranslator.v], Module [Palette]: [colorconvert] (lines
      5-21) as [convert_loop] over [range(54)] with IndexError past the
      end of the string.  Theorems C1-C4 and C33: exact result on every
      string, 54 solver letters on a well-formed string, injectivity,
      silent dropping of foreign characters, and the round trip with
      the inverse table [decode_facelets].
    - [FaceIdentifier.v], Module [Identify]: [identify_face_by_center]
      (lines 65-80) and its abstract specification [identify_abs];
      C5 is the refinement.
    - [ScanOrchestrator.v], Module [Orchestrator]: the loop of
      [flexible_cube_scanner] (lines 152-212): the state record
      [scan_state] (the dict [all_faces], [face_count], the console
      lines), one iteration as [scan_iteration_begin] and
      [scan_iteration_finish], the loop [scan_loop] over a finite list
      of attempts, and the assembly [assemble_cube_string].  The
      capture session is reached through the class [FaceScanner] with
      its law [FaceScannerOk].  C6-C10: no crash of the loop's own
      making, the invariant [scan_inv], liveness, rejection of a
      duplicate face, a well-formed facelet string after the loop.
    - [ScanSpec.v], Module [ScanSpec]: the contract of the scan loop on
      the list of bound slots ([spec_loop]) and the refinement C32.
    - [Hsv.v], Module [Hsv]: OpenCV's 8-bit BGR->HSV conversion, which
      [cv2.cvtColor] performs; it is library code, modelled from its
      documented fixed-point algorithm, with range lemmas.
    - [ColorClassifier.v], Module [Classify]: [detect_color] (lines
      23-63): the HSV cascade [hsv_rules] and the fallback on uint8
      channels.  C11-C15: a colour letter always, equality with unbounded
      sums on channels <= 225, the wrap of [g + 30] and [b + 30] that
      labels every pixel with green and blue channels of at least 226
      red where the unbounded sums give white, grey pixels, hues 5-8
      never red; C31 the reference HSV range of each colour.
    - [FaceSampler.v], Module [Sampler]: the frame record, numpy indexing
      [frame_get], drawing through the class [Canvas] whose laws
      [CanvasOk] bound the pixels a call changes, and the grid loop
      [sample_cells]/[sample_grid] (lines 97-122).  C16-C19: success on
      frames of at least 140x201, IndexError below, the labels are read
      from the given frame's cell centres, and on frames lower than 280
      rows the centres above the frame are read [height] rows lower
      (numpy's negative indexing), with no clamping.
    - [CaptureSession.v], Module [Capture]: [scan_single_face] (lines
      82-150): state [sess], per-frame [session_frame] (sampling,
      banner, [imshow], [handle_key] on [waitKey & 0xFF]), the loop
      [session_loop] over the frames the camera delivers, effects as a
      list of [event]s, the inductive [reachable] with its invariant by
      rule induction, and the instance of [FaceScannerOk].  The
      specification's protocol is [phase]/[spec_key]/[spec_run].
      C20-C24 and C29: refinement of the protocol, the result shape, the
      camera release, the key mask, the unconfirmed snapshot returned
      whenever the frames stop after a capture and before Enter or q,
      and termination at the frame where q is pressed.
    - [SolutionFormatter.v], Module [Formatter]: Python's [str.split()],
      [replace] and [endswith] on character lists,
      [convert_solution_to_readable] and [print_readable_solution]
      (lines 227-281).  C25-C26: the solver's output format read move
      by move, and any answer without a direction digit (an error
      message) printed as an empty solution.
    - [Pipeline.v], Module [Pipeline]: the tail of
      [flexible_cube_scanner] (lines 212-226: print, [colorconvert], the
      solver through the class [Solver], the formatted solution, the
      exception handler), the whole function, and the script's entry
      [main] (line 283) with the real session.  C27, C28, C30 and C34:
      the end-to-end safety for any session and solver, the solver's
      input has centres U,R,F,D,L,B, with the real session only a
      too-small frame raises, and the script ends when every slot is
      shown on frames of usual size.

    ** Bounds and inputs

    Loops over camera input are run over finite lists: the attempts of
    the scan loop (the result is [LoopBlocked] when the list is used up
    before six faces are bound: the program is waiting for the
    operator), and the frames of a session (the read after the last one
    fails, as [cap.read()] does at the end of a stream).  The [for]
    loops of the code are structural recursions over [range] lists.  No
    fuel is needed: every loop of the code either follows a finite
    range or consumes one input per iteration.

    ** Not modelled

    The camera and the windows (OpenCV I/O): a session's camera is its
    input, drawing is the class [Canvas], showing a frame is an event.
    The two-phase solver's search is an external library; only its
    interface [Solver] is modelled.  Console output is a list of lines;
    [input("press enter when ready...")] only waits and is a printed
    prompt.  Floating-point scales of [putText] are integers in
    thousandths; OpenCV's glyph shapes are bounded by [text_reach].
*)

From stdpp Require Export base list strings decidable sets.
From Stdlib Require Export ZArith Lia.
From Stdlib Require String DecimalString.
From Stdlib Require Export Ascii.

Open Scope string_scope.
Local Open Scope Z_scope.
Open Scope list_scope.

Declare Scope rc_scope.
Delimit Scope rc_scope with rc.

Create HintDb rcsolver discriminated.
Create Rewrite HintDb rcsolver.
#[export] Hint Constants Transparent : rcsolver.

(** ** Python exceptions as values *)

(** The exceptions the modelled code can raise.  [SolverError] carries
    the message of an exception raised by the external solver. *)
Inductive py_exc :=
| IndexError
| KeyError
| TypeError
| SolverError (msg : string).

Definition pyres (A : Type) : Type := py_exc + A.

Definition pret {A} (x : A) : pyres A := inr x.
Definition praise {A} (e : py_exc) : pyres A := inl e.
Definition pbind {A B} (c : pyres A) (k : A -> pyres B) : pyres B :=
  match c with inl e => inl e | inr x => k x end.

Notation "x <-! c ;; k" := (pbind c (fun x => k))
  (at level 100, c at next level, right associativity) : rc_scope.

Open Scope rc_scope.

Lemma pbind_ret {A B} (x : A) (k : A -> pyres B) : pbind (pret x) k = k x.
Proof. reflexivity. Qed.

Lemma pbind_inr_inv {A B} (c : pyres A) (k : A -> pyres B) (y : B) :
  pbind c k = inr y -> exists x, c = inr x /\ k x = inr y.
Proof. destruct c; simpl; [discriminate | eauto]. Qed.

#[export] Hint Rewrite @pbind_ret : rcsolver.

(** ** Python's sequence indexing *)

(** [seq[i]] on a sequence of length [n]: a non-negative index must be
    below [n], a negative one counts from the end; anything else raises
    IndexError.  The result is the position actually read. *)
Definition py_index (n i : Z) : option Z :=
  if (0 <=? i) && (i <? n) then Some i
  else if (- n <=? i) && (i <? 0) then Some (i + n)
  else None.

Lemma py_index_in_range n i : 0 <= i < n -> py_index n i = Some i.
Proof.
  intros H. unfold py_index.
  destruct (0 <=? i) eqn:E1, (i <? n) eqn:E2; simpl; try reflexivity; lia.
Qed.

Lemma py_index_neg n i : - n <= i < 0 -> py_index n i = Some (i + n).
Proof.
  intros H. unfold py_index.
  rewrite (proj2 (Z.leb_gt 0 i)) by lia. cbn [andb].
  rewrite (proj2 (Z.leb_le (- n) i)), (proj2 (Z.ltb_lt i 0)) by lia. reflexivity.
Qed.

(** A negative position counts from the end: it is the remainder. *)
Lemma mod_neg_shift n i : - n <= i < 0 -> i mod n = i + n.
Proof. intros H. symmetry. apply (Z.mod_unique i n (-1)); lia. Qed.

Lemma py_index_mod n i : - n <= i < n -> py_index n i = Some (i mod n).
Proof.
  intros H. destruct (Z_le_gt_dec 0 i).
  - rewrite Z.mod_small by lia. apply py_index_in_range. lia.
  - rewrite mod_neg_shift by lia. apply py_index_neg. lia.
Qed.

Lemma py_index_None n i : i < - n \/ n <= i -> py_index n i = None.
Proof.
  intros H. unfold py_index.
  destruct (0 <=? i) eqn:E1, (i <? n) eqn:E2, (- n <=? i) eqn:E3, (i <? 0) eqn:E4;
    cbn [andb]; try reflexivity; rewrite ?Z.leb_le, ?Z.ltb_lt, ?Z.leb_gt, ?Z.ltb_ge in *; lia.
Qed.

Lemma py_index_Some n i j : py_index n i = Some j -> 0 <= j < n.
Proof.
  unfold py_index. intros H.
  destruct ((0 <=? i) && (i <? n)) eqn:E1;
    [injection H as <-; lia |].
  destruct ((- n <=? i) && (i <? 0)) eqn:E2; [injection H as <-; lia | discriminate].
Qed.

Definition py_getitem {A} (l : list A) (i : Z) : pyres A :=
  match py_index (Z.of_nat (length l)) i with
  | Some j => match l !! Z.to_nat j with Some x => inr x | None => inl IndexError end
  | None => inl IndexError
  end.

Lemma py_getitem_nat {A} (l : list A) (i : nat) (x : A) :
  l !! i = Some x -> py_getitem l (Z.of_nat i) = inr x.
Proof.
  intros H. unfold py_getitem.
  pose proof (lookup_lt_Some _ _ _ H).
  rewrite py_index_in_range by lia. rewrite Nat2Z.id, H. reflexivity.
Qed.

(** ** 8-bit unsigned arithmetic (numpy.uint8) *)

Definition u8 (z : Z) : Z := z mod 2 ^ 8.

Lemma u8_range z : 0 <= u8 z < 256.
Proof. unfold u8. apply Z.mod_pos_bound. reflexivity. Qed.

Lemma u8_small z : 0 <= z < 256 -> u8 z = z.
Proof. intros H. unfold u8. apply Z.mod_small. exact H. Qed.

Lemma u8_wrap z : 256 <= z < 512 -> u8 z = z - 256.
Proof.
  intros H. unfold u8. rewrite <- (Z.mod_small (z - 256) 256) by lia.
  change (2 ^ 8) with 256.
  replace z with ((z - 256) + 1 * 256) at 1 by lia.
  apply Z.mod_add. lia.
Qed.

#[export] Hint Resolve u8_range : rcsolver.

(** ** Python dicts as association lists

    A Python dict keeps its keys in insertion order; assigning to a
    present key updates the value in place, assigning to an absent key
    appends it.  [d[k]] raises KeyError on an absent key, [d.get(k, x)]
    returns [x]. *)

Section Dict.
Context {K V : Type} `{EqDecision K}.

Fixpoint dict_get (d : list (K * V)) (k : K) : option V :=
  match d with
  | [] => None
  | (k', v) :: d' => if decide (k = k') then Some v else dict_get d' k
  end.

Fixpoint dict_set (d : list (K * V)) (k : K) (v : V) : list (K * V) :=
  match d with
  | [] => [(k, v)]
  | (k', v') :: d' =>
      if decide (k = k') then (k', v) :: d' else (k', v') :: dict_set d' k v
  end.

Definition dict_keys (d : list (K * V)) : list K := map fst d.

Definition dict_contains (d : list (K * V)) (k : K) : bool :=
  bool_decide (k ∈ dict_keys d).

Definition dict_getitem (d : list (K * V)) (k : K) : pyres V :=
  match dict_get d k with Some v => inr v | None => inl KeyError end.

Lemma dict_get_None d k : dict_get d k = None <-> k ∉ dict_keys d.
Proof.
  induction d as [|[k' v'] d IH]; simpl.
  - split; [intros _; apply not_elem_of_nil | done].
  - rewrite not_elem_of_cons. case_decide; naive_solver.
Qed.

Lemma dict_get_Some_elem d k v : dict_get d k = Some v -> k ∈ dict_keys d.
Proof.
  intros H. destruct (decide (k ∈ dict_keys d)) as [|Hn]; [done|].
  apply dict_get_None in Hn. congruence.
Qed.

Lemma dict_set_new d k v :
  k ∉ dict_keys d -> dict_set d k v = d ++ [(k, v)].
Proof.
  induction d as [|[k' v'] d IH]; simpl; [done|].
  rewrite not_elem_of_cons. intros [Hne Hn].
  rewrite decide_False by done. by rewrite IH.
Qed.

Lemma dict_keys_app d d' : dict_keys (d ++ d') = dict_keys d ++ dict_keys d'.
Proof. apply map_app. Qed.

Lemma dict_get_app_new d k v k' :
  k ∉ dict_keys d ->
  dict_get (d ++ [(k, v)]) k' = if decide (k' = k) then Some v else dict_get d k'.
Proof.
  induction d as [|[k0 v0] d IH]; simpl; intros Hn.
  - done.
  - rewrite not_elem_of_cons in Hn. destruct Hn as [Hne Hn].
    rewrite IH by done.
    destruct (decide (k' = k0)) as [->|]; [|done].
    by rewrite decide_False.
Qed.

Lemma dict_contains_spec d k : dict_contains d k = true <-> k ∈ dict_keys d.
Proof. unfold dict_contains. apply bool_decide_eq_true. Qed.
End Dict.

#[export] Hint Resolve dict_get_Some_elem : rcsolver.

(** ** Tactics shared by the component files *)

(** Case analysis on the [decide]s and [bool_decide]s of a goal. *)
Ltac rc_decide :=
  repeat first [ case_decide | case_bool_decide ]; simplify_eq/=.

(** Close a goal about a closed term by computation. *)
Ltac rc_compute := vm_compute; reflexivity.

(** ** Strings as lists of characters *)

(** [s[i]] of a Python string, read through Rocq's [String.get]. *)
Lemma string_get_list (s : string) (i : nat) :
  String.get i s = String.list_ascii_of_string s !! i.
Proof.
  revert i. induction s as [|c s IH]; intros [|i]; simpl; auto.
Qed.

Lemma string_length_list (s : string) :
  String.length s = length (String.list_ascii_of_string s).
Proof. induction s as [|c s IH]; simpl; auto. Qed.

Lemma string_append_list (s t : string) :
  String.list_ascii_of_string (s +:+ t)
  = String.list_ascii_of_string s ++ String.list_ascii_of_string t.
Proof. induction s as [|c s IH]; simpl; [done | by rewrite IH]. Qed.

#[export] Hint Rewrite string_append_list String.list_ascii_of_string_of_list_ascii
  String.string_of_list_ascii_of_string : rcsolver.

(** ** The six sticker colours

    [detect_color] returns one of six one-letter strings; the letters are
    the initials of the colours (the scan palette). *)
Inductive color := White | Yellow | Orange | Red | Green | Blue.

#[export] Instance color_eq_dec : EqDecision color.
Proof. solve_decision. Defined.

Definition all_colors : list color := [White; Yellow; Orange; Red; Green; Blue].

Lemma all_colors_complete (c : color) : c ∈ all_colors.
Proof. destruct c; set_solver. Qed.

Definition color_char (c : color) : ascii :=
  match c with
  | White => "W" | Yellow => "Y" | Orange => "O"
  | Red => "R" | Green => "G" | Blue => "B"
  end%char.

Definition color_letter (c : color) : string := String.String (color_char c) EmptyString.

Lemma color_char_inj (c1 c2 : color) : color_char c1 = color_char c2 -> c1 = c2.
Proof. destruct c1, c2; simpl; congruence. Qed.

Lemma color_letter_inj (c1 c2 : color) : color_letter c1 = color_letter c2 -> c1 = c2.
Proof. intros H. injection H as H. by apply color_char_inj. Qed.

#[export] Hint Resolve all_colors_complete : rcsolver.

Lemma string_list_inj (s t : string) :
  String.list_ascii_of_string s = String.list_ascii_of_string t -> s = t.
Proof.
  intros H. rewrite <- (String.string_of_list_ascii_of_string s), H.
  apply String.string_of_list_ascii_of_string.
Qed.

(** Prove an equation between strings on their character lists. *)
Ltac string_as_list :=
  apply string_list_inj; autorewrite with rcsolver; simpl.

(** ** Generic list lemmas *)

Lemma omap_cons {A B} (f : A -> option B) (x : A) (l : list A) :
  omap f (x :: l) = match f x with Some y => y :: omap f l | None => omap f l end.
Proof. reflexivity. Qed.

Lemma omap_all_None {A B} (f : A -> option B) (l : list A) :
  (forall x, x ∈ l -> f x = None) -> omap f l = [].
Proof.
  induction l as [|x l IH]; intros Hn; [done|]. rewrite omap_cons, (Hn x (list_elem_of_here _ _)).
  apply IH. intros y Hy. apply Hn. by apply list_elem_of_further.
Qed.

Lemma length_omap_le {A B} (f : A -> option B) (l : list A) :
  (length (omap f l) <= length l)%nat.
Proof.
  induction l as [|x l IH]; [done|]. rewrite omap_cons.
  destruct (f x); simpl; lia.
Qed.

(** A filter-map that drops one element is strictly shorter. *)
Lemma length_omap_lt {A B} (f : A -> option B) (l : list A) (i : nat) (x : A) :
  l !! i = Some x -> f x = None -> (length (omap f l) < length l)%nat.
Proof.
  revert i. induction l as [|y l IH]; intros [|i] Hi Hf; try done; rewrite omap_cons.
  - injection Hi as ->. rewrite Hf. pose proof (length_omap_le f l). simpl. lia.
  - specialize (IH i Hi Hf). destruct (f y); simpl; lia.
Qed.

(** ** Python string formatting *)

(** The newline character, written ["\n"] in the source. *)
Definition nl : string := String.String (ascii_of_nat 10) EmptyString.

(** [str(n)] / [f"{n}"] of a Python int. *)
Definition py_str_int (n : Z) : string :=
  DecimalString.NilZero.string_of_int (Z.to_int n).

(** [f"{x}"] of a value that is a string or [None]. *)
Definition py_str_opt (x : option string) : string :=
  match x with Some s => s | None => "None" end.

(** [sep.join(xs)] of a list that may hold [None]: TypeError. *)
Fixpoint py_join_opt (sep : string) (xs : list (option string)) : pyres string :=
  match xs with
  | [] => inr ""
  | [Some x] => inr x
  | Some x :: xs' => r <-! py_join_opt sep xs' ;; inr (x +:+ sep +:+ r)
  | None :: _ => inl TypeError
  end.

Lemma py_join_opt_Some (sep : string) (xs : list string) :
  py_join_opt sep (Some <$> xs) = inr (String.concat sep xs).
Proof.
  induction xs as [|x xs IH]; [done|]. destruct xs as [|y xs]; [done|].
  change (pbind (py_join_opt sep (Some <$> (y :: xs))) (λ r, inr (x +:+ sep +:+ r))
          = inr (String.concat sep (x :: y :: xs))).
  rewrite IH. reflexivity.
Qed.

Lemma py_join_opt_all_Some (sep : string) (xs : list (option string)) :
  Forall (λ x, is_Some x) xs -> exists s, py_join_opt sep xs = inr s.
Proof.
  intros Hall. exists (String.concat sep (omap id xs)).
  assert (Hxs : xs = Some <$> omap id xs).
  { induction Hall as [|x xs [y ->] Hall IH]; [done|]. simpl. f_equal. exact IH. }
  rewrite Hxs at 1. apply py_join_opt_Some.
Qed.

(** [''.join(xs)] on character lists. *)
Lemma string_concat_empty (xs : list string) :
  String.list_ascii_of_string (String.concat "" xs)
  = concat (String.list_ascii_of_string <$> xs).
Proof.
  induction xs as [|x [|y xs] IH]; [done | simpl; by rewrite app_nil_r |].
  change (String.concat "" (x :: y :: xs)) with (x +:+ "" +:+ String.concat "" (y :: xs)).
  rewrite !string_append_list, IH. reflexivity.
Qed.

Lemma color_letters_chars (cs : list color) :
  concat (String.list_ascii_of_string <$> (color_letter <$> cs)) = color_char <$> cs.
Proof. induction cs as [|c cs IH]; [done|]. simpl. f_equal. exact IH. Qed.

(** A list of readings in colour letters is a list of colours. *)
Lemma letters_colors (l : list string) :
  Forall (λ x, exists c, x = color_letter c) l -> exists cs, l = color_letter <$> cs.
Proof.
  induction 1 as [|x l [c ->] _ [cs ->]]; [by exists []|]. by exists (c :: cs).
Qed.

Lemma dict_get_elem {K V} `{EqDecision K} (d : list (K * V)) (k : K) (v : V) :
  dict_get d k = Some v -> (k, v) ∈ d.
Proof.
  induction d as [|[k' v'] d IH]; simpl; [done|].
  case_decide; [intros [= ->]; subst; by left | intros Hg; right; by apply IH].
Qed.

(** Reading position [9 k + j] of blocks of nine. *)
Lemma lookup_concat_nine {A} (bs : list (list A)) (k j : nat) :
  Forall (λ b, length b = 9%nat) bs -> (j < 9)%nat ->
  concat bs !! (9 * k + j)%nat = bs !! k ≫= (λ b, b !! j).
Proof.
  intros Hall Hj. revert k. induction Hall as [|b bs Hb Hall IH]; intros k; [done|].
  change (concat (b :: bs)) with (b ++ concat bs). destruct k as [|k].
  - replace (9 * 0 + j)%nat with j by lia. rewrite lookup_app_l by lia. done.
  - rewrite lookup_app_r by lia. rewrite Hb.
    replace (9 * S k + j - 9)%nat with (9 * k + j)%nat by lia. apply IH.
Qed.

Lemma length_concat_nine {A} (bs : list (list A)) :
  Forall (λ b, length b = 9%nat) bs -> length (concat bs) = (9 * length bs)%nat.
Proof. induction 1 as [|b bs Hb _ IH]; [done|]. simpl. rewrite length_app, Hb, IH. lia. Qed.
