(* ===== verification/PaletteTranslator.v ===== *)
(** * PaletteTranslator: [colorconvert] (src/RCsolver.py, lines 5-21)

    The scan palette (colour initials W Y O B G R) is rewritten into the
    solver palette (face letters U D B R L F) character by character,
    over the first 54 characters of the input.  Reading past the end of
    a shorter string raises IndexError; a character outside the scan
    palette matches no branch of the [if]/[elif] chain and is dropped. *)

From S2P Require Import Prelude.

Module Palette.

(** One iteration of the loop body: the [if]/[elif] chain, giving the
    character appended to [cubestring], if any. *)
Definition convert_letter (c : ascii) : option ascii :=
  if decide (c = "W"%char) then Some "U"%char
  else if decide (c = "Y"%char) then Some "D"%char
  else if decide (c = "O"%char) then Some "B"%char
  else if decide (c = "B"%char) then Some "R"%char
  else if decide (c = "G"%char) then Some "L"%char
  else if decide (c = "R"%char) then Some "F"%char
  else None.

Definition append_converted (cubestring : string) (c : ascii) : string :=
  match convert_letter c with
  | Some d => cubestring +:+ String.String d EmptyString
  | None => cubestring
  end.

(** [for i in range(k)] starting at index [i]; [colorstring[i]] raises
    IndexError past the end of the string. *)
Fixpoint convert_loop (colorstring : string) (i k : nat) (cubestring : string)
    : pyres string :=
  match k with
  | O => inr cubestring
  | S k' =>
      match String.get i colorstring with
      | None => inl IndexError
      | Some c => convert_loop colorstring (S i) k' (append_converted cubestring c)
      end
  end.

Definition colorconvert (colorstring : string) : pyres string :=
  convert_loop colorstring 0 54 "".

(** The solver letter of a colour, and the inverse table. *)
Definition solver_char (c : color) : ascii :=
  match c with
  | White => "U" | Yellow => "D" | Orange => "B"
  | Blue => "R" | Green => "L" | Red => "F"
  end%char.

Definition scan_palette : list ascii := color_char <$> all_colors.
Definition solver_palette : list ascii := solver_char <$> all_colors.

(** A well-formed facelet string: 54 characters of the scan palette. *)
Definition well_formed_colors (s : string) : Prop :=
  String.length s = 54 /\ Forall (.∈ scan_palette) (String.list_ascii_of_string s).

#[export] Instance well_formed_colors_dec s : Decision (well_formed_colors s).
Proof. unfold well_formed_colors. apply _. Defined.

(** The inverse table: solver letter back to scan letter. *)
Definition scan_char (d : ascii) : option ascii :=
  if decide (d = "U"%char) then Some "W"%char
  else if decide (d = "D"%char) then Some "Y"%char
  else if decide (d = "B"%char) then Some "O"%char
  else if decide (d = "R"%char) then Some "B"%char
  else if decide (d = "L"%char) then Some "G"%char
  else if decide (d = "F"%char) then Some "R"%char
  else None.

Definition decode_facelets (t : string) : string :=
  String.string_of_list_ascii (omap scan_char (String.list_ascii_of_string t)).

(** A facelet string in the solver's palette. *)
Definition solver_wf (t : string) : Prop :=
  String.length t = 54 /\ Forall (.∈ solver_palette) (String.list_ascii_of_string t).

(** ** Lemmas *)

Lemma convert_letter_color (c : color) : convert_letter (color_char c) = Some (solver_char c).
Proof. by destruct c. Qed.

Lemma convert_letter_Some (a d : ascii) :
  convert_letter a = Some d <-> exists c, a = color_char c /\ d = solver_char c.
Proof.
  split.
  - unfold convert_letter. intros H. rc_decide;
      [exists White | exists Yellow | exists Orange
      | exists Blue | exists Green | exists Red]; done.
  - intros (c & -> & ->). apply convert_letter_color.
Qed.

Lemma convert_letter_None (a : ascii) : convert_letter a = None <-> a ∉ scan_palette.
Proof.
  unfold scan_palette. rewrite list_elem_of_fmap. split.
  - intros H (c & -> & _). by rewrite convert_letter_color in H.
  - intros Hn. destruct (convert_letter a) as [d|] eqn:E; [|done].
    apply convert_letter_Some in E as (c & -> & _).
    destruct Hn. exists c. split; [done | apply all_colors_complete].
Qed.

Lemma solver_char_inj (c1 c2 : color) : solver_char c1 = solver_char c2 -> c1 = c2.
Proof. destruct c1, c2; simpl; congruence. Qed.

(** The loop computes the characters it keeps, in order, on the prefix it
    reads. *)
Lemma convert_loop_spec (s : string) (i k : nat) (acc : string) :
  i + k <= String.length s ->
  convert_loop s i k acc =
  inr (acc +:+ String.string_of_list_ascii
         (omap convert_letter (take k (drop i (String.list_ascii_of_string s))))).
Proof.
  rewrite string_length_list.
  revert i acc. induction k as [|k IH]; intros i acc Hlen; simpl.
  - f_equal. string_as_list. by rewrite app_nil_r.
  - rewrite string_get_list.
    destruct (String.list_ascii_of_string s !! i) as [a|] eqn:E;
      [| apply lookup_ge_None in E; lia].
    rewrite IH by lia. f_equal. string_as_list.
    rewrite (drop_S _ _ _ E). simpl. unfold append_converted.
    destruct (convert_letter a); autorewrite with rcsolver; simpl;
      [by rewrite <- app_assoc | done].
Qed.

Lemma convert_loop_short (s : string) (i k : nat) (acc : string) :
  0 < k -> String.length s < i + k -> convert_loop s i k acc = inl IndexError.
Proof.
  rewrite string_length_list.
  revert i acc. induction k as [|k IH]; intros i acc Hk Hlen; simpl; [lia|].
  rewrite string_get_list.
  destruct (String.list_ascii_of_string s !! i) eqn:E; [|done].
  apply lookup_lt_Some in E. apply IH; lia.
Qed.


Lemma convert_letter_inj (a1 a2 d : ascii) :
  convert_letter a1 = Some d -> convert_letter a2 = Some d -> a1 = a2.
Proof.
  rewrite !convert_letter_Some. intros (c1 & -> & ->) (c2 & -> & Hd).
  by rewrite (solver_char_inj _ _ Hd).
Qed.

Lemma convert_letter_palette (a : ascii) :
  a ∈ scan_palette -> exists d, convert_letter a = Some d /\ d ∈ solver_palette.
Proof.
  unfold scan_palette, solver_palette. rewrite list_elem_of_fmap.
  intros (c & -> & _). exists (solver_char c). rewrite convert_letter_color.
  split; [done|]. apply list_elem_of_fmap_2, all_colors_complete.
Qed.

(** On characters of the scan palette the chain keeps every character. *)
Lemma omap_convert_palette (l : list ascii) :
  Forall (.∈ scan_palette) l ->
  length (omap convert_letter l) = length l /\
  forall i, omap convert_letter l !! i = l !! i ≫= convert_letter.
Proof.
  induction 1 as [|a l Ha Hl [IHlen IHget]]; [done|].
  destruct (convert_letter_palette a Ha) as (d & Hd & _).
  simpl. rewrite Hd. split; [simpl; f_equal; exact IHlen|].
  intros [|i]; simpl; [by rewrite Hd | apply IHget].
Qed.

Lemma omap_convert_inj (l1 l2 : list ascii) :
  Forall (.∈ scan_palette) l1 -> Forall (.∈ scan_palette) l2 ->
  omap convert_letter l1 = omap convert_letter l2 -> l1 = l2.
Proof.
  intros H1. revert l2.
  induction H1 as [|a l Ha Hl IH]; intros l2 H2; destruct H2 as [|b l' Hb Hl'];
    [done| | |].
  - destruct (convert_letter_palette b Hb) as (d & Hd & _). simpl. by rewrite Hd.
  - destruct (convert_letter_palette a Ha) as (d & Hd & _). simpl. by rewrite Hd.
  - destruct (convert_letter_palette a Ha) as (d & Hd & _).
    destruct (convert_letter_palette b Hb) as (e & He & _).
    simpl. rewrite Hd, He. intros [= <- Htl].
    f_equal; [by eapply convert_letter_inj | by apply IH].
Qed.

Lemma omap_convert_solver (l : list ascii) :
  Forall (.∈ solver_palette) (omap convert_letter l).
Proof.
  induction l as [|a l IH]; simpl; [done|].
  destruct (convert_letter a) as [d|] eqn:E; [|done].
  constructor; [|done].
  apply convert_letter_Some in E as (c & -> & ->).
  apply list_elem_of_fmap_2, all_colors_complete.
Qed.

Lemma well_formed_take (s : string) :
  well_formed_colors s -> take 54 (String.list_ascii_of_string s) = String.list_ascii_of_string s.
Proof. intros [Hlen _]. apply take_ge. rewrite <- string_length_list. lia. Qed.

Lemma scan_char_solver (c : color) : scan_char (solver_char c) = Some (color_char c).
Proof. by destruct c. Qed.

Lemma omap_scan_convert (l : list ascii) :
  Forall (.∈ scan_palette) l -> omap scan_char (omap convert_letter l) = l.
Proof.
  induction 1 as [|a l Ha _ IH]; [done|].
  unfold scan_palette in Ha. apply list_elem_of_fmap in Ha as (c & -> & _).
  cbn. rewrite convert_letter_color. cbn. by rewrite scan_char_solver, IH.
Qed.

Lemma omap_convert_scan (l : list ascii) :
  Forall (.∈ solver_palette) l ->
  omap convert_letter (omap scan_char l) = l /\ Forall (.∈ scan_palette) (omap scan_char l) /\
  length (omap scan_char l) = length l.
Proof.
  induction 1 as [|a l Ha _ (IH1 & IH2 & IH3)]; [done|].
  unfold solver_palette in Ha. apply list_elem_of_fmap in Ha as (c & -> & _).
  cbn. rewrite scan_char_solver. cbn. rewrite convert_letter_color, IH1.
  split; [done|]. split; [constructor; [change (color_char c ∈ scan_palette); apply list_elem_of_fmap_2, all_colors_complete | done]|].
  cbn. lia.
Qed.

(** ** Properties of [colorconvert] *)

(** C1.  [colorconvert] on any string: with at least 54 characters it
    returns the solver letters of the scan-palette characters among the
    first 54, in order, dropping the others; with fewer it raises
    IndexError. *)
Theorem colorconvert_spec (s : string) :
  colorconvert s =
  if decide (54 <= String.length s)%nat
  then inr (String.string_of_list_ascii
              (omap convert_letter (take 54 (String.list_ascii_of_string s))))
  else inl IndexError.
Proof.
  unfold colorconvert. case_decide.
  - rewrite convert_loop_spec by lia. simpl. by rewrite drop_0.
  - apply convert_loop_short; lia.
Qed.

Lemma colorconvert_wf_list (s : string) :
  well_formed_colors s ->
  colorconvert s =
  inr (String.string_of_list_ascii (omap convert_letter (String.list_ascii_of_string s))).
Proof.
  intros Hwf. rewrite colorconvert_spec, decide_True by (destruct Hwf; lia).
  by rewrite well_formed_take.
Qed.

(** C2.  On a well-formed facelet string (54 scan-palette letters) the
    translation succeeds, has 54 characters, all of the solver palette,
    and its character [i] is the translation of the input's character
    [i]. *)
Theorem colorconvert_well_formed (s : string) :
  well_formed_colors s ->
  exists t, colorconvert s = inr t /\ String.length t = 54%nat /\
    Forall (.∈ solver_palette) (String.list_ascii_of_string t) /\
    forall i, String.get i t = String.get i s ≫= convert_letter.
Proof.
  intros Hwf. rewrite colorconvert_wf_list by done. eexists; split; [done|].
  destruct Hwf as [Hlen Hpal].
  destruct (omap_convert_palette _ Hpal) as [Hl Hget].
  rewrite string_length_list. autorewrite with rcsolver.
  split; [by rewrite Hl, <- string_length_list|].
  split; [apply omap_convert_solver|].
  intros i. rewrite !string_get_list. autorewrite with rcsolver. apply Hget.
Qed.

(** C3.  The translation is injective on well-formed facelet strings:
    two cube states that translate to the same solver string are equal. *)
Theorem colorconvert_injective (s1 s2 : string) :
  well_formed_colors s1 -> well_formed_colors s2 ->
  colorconvert s1 = colorconvert s2 -> s1 = s2.
Proof.
  intros H1 H2. rewrite !colorconvert_wf_list by done.
  intros [= Heq]. apply string_list_inj.
  apply (f_equal String.list_ascii_of_string) in Heq.
  autorewrite with rcsolver in Heq.
  eapply omap_convert_inj; [apply H1 | apply H2 | exact Heq].
Qed.

(** C4.  A character outside the scan palette among the first 54 makes
    no branch of the chain fire: [colorconvert] still succeeds, with a
    string shorter than 54 characters (it does not fail, as the spec asks
    of an ill-formed input). *)
Theorem colorconvert_drops_foreign (s : string) (i : nat) (a : ascii) :
  (54 <= String.length s)%nat -> (i < 54)%nat -> String.get i s = Some a ->
  a ∉ scan_palette ->
  exists t, colorconvert s = inr t /\ (String.length t < 54)%nat.
Proof.
  intros Hlen Hi Hget Ha. rewrite colorconvert_spec, decide_True by done.
  eexists; split; [done|]. rewrite string_length_list. autorewrite with rcsolver.
  rewrite string_get_list in Hget.
  assert (Htake : take 54 (String.list_ascii_of_string s) !! i = Some a)
    by (rewrite lookup_take_lt; done).
  eapply Nat.lt_le_trans;
    [eapply length_omap_lt; [exact Htake | by apply convert_letter_None]|].
  rewrite length_take. lia.
Qed.

(** ** Concrete runs *)

(** The solved cube as scanned: faces in the order TOP, RIGHT, FRONT,
    BOTTOM, LEFT, BACK, all nine stickers of a face the colour of its
    centre. *)
Definition solved_scan : string :=
  "WWWWWWWWWBBBBBBBBBRRRRRRRRRYYYYYYYYYGGGGGGGGGOOOOOOOOO".

Lemma solved_scan_well_formed : well_formed_colors solved_scan.
Proof. apply (bool_decide_unpack _). vm_compute. reflexivity. Qed.

Example colorconvert_solved :
  colorconvert solved_scan = inr "UUUUUUUUURRRRRRRRRFFFFFFFFFDDDDDDDDDLLLLLLLLLBBBBBBBBB".
Proof. reflexivity. Qed.

Example colorconvert_short : colorconvert "WWW" = inl IndexError.
Proof. reflexivity. Qed.

Lemma colorconvert_well_formed_witness :
  exists t, colorconvert solved_scan = inr t /\ String.length t = 54%nat /\
    Forall (.∈ solver_palette) (String.list_ascii_of_string t) /\
    forall i, String.get i t = String.get i solved_scan ≫= convert_letter.
Proof. apply colorconvert_well_formed. apply (bool_decide_unpack _). vm_compute. reflexivity. Defined.

Lemma colorconvert_injective_witness : solved_scan = solved_scan.
Proof.
  apply colorconvert_injective;
    [apply (bool_decide_unpack _); vm_compute; reflexivity
    | apply (bool_decide_unpack _); vm_compute; reflexivity
    | reflexivity].
Defined.

(** A black sticker [K] in the first position. *)
Definition scan_with_black : string :=
  "KWWWWWWWWBBBBBBBBBRRRRRRRRRYYYYYYYYYGGGGGGGGGOOOOOOOOO".

Lemma colorconvert_drops_foreign_witness :
  exists t, colorconvert scan_with_black = inr t /\ (String.length t < 54)%nat.
Proof.
  apply (colorconvert_drops_foreign scan_with_black 0 "K"%char);
    [vm_compute; lia | lia | reflexivity | apply (bool_decide_unpack _); vm_compute; reflexivity].
Defined.

(** C33.  Round trip of the palette translation: on a well-formed
    facelet string [colorconvert] is undone by the inverse table
    [decode_facelets], and every 54-letter string of the solver palette
    is the translation of the well-formed scan it decodes to: the
    translation is a bijection between the two palettes' facelet
    strings. *)
Theorem colorconvert_roundtrip :
  (forall s, well_formed_colors s -> exists t, colorconvert s = inr t /\ decode_facelets t = s) /\
  (forall t, solver_wf t -> well_formed_colors (decode_facelets t) /\ colorconvert (decode_facelets t) = inr t).
Proof.
  split.
  - intros s Hwf. rewrite colorconvert_wf_list by done. eexists; split; [done|].
    unfold decode_facelets. autorewrite with rcsolver.
    rewrite omap_scan_convert by apply Hwf. apply String.string_of_list_ascii_of_string.
  - intros t [Hlen Hpal]. destruct (omap_convert_scan _ Hpal) as (H1 & H2 & H3).
    assert (Hwf : well_formed_colors (decode_facelets t)).
    { unfold decode_facelets, well_formed_colors. rewrite string_length_list.
      autorewrite with rcsolver. rewrite H3, <- string_length_list. by split. }
    split; [done|]. rewrite colorconvert_wf_list by done.
    unfold decode_facelets. autorewrite with rcsolver. rewrite H1.
    f_equal. apply String.string_of_list_ascii_of_string.
Qed.

Lemma colorconvert_roundtrip_witness :
  (exists t, colorconvert solved_scan = inr t /\ decode_facelets t = solved_scan) /\
  colorconvert (decode_facelets "UUUUUUUUURRRRRRRRRFFFFFFFFFDDDDDDDDDLLLLLLLLLBBBBBBBBB") =
    inr "UUUUUUUUURRRRRRRRRFFFFFFFFFDDDDDDDDDLLLLLLLLLBBBBBBBBB".
Proof.
  split; [apply (proj1 colorconvert_roundtrip), solved_scan_well_formed|].
  apply (proj2 colorconvert_roundtrip). split; [reflexivity|].
  apply (bool_decide_unpack _). vm_compute. reflexivity.
Defined.

End Palette.

