(* ===== verification/FaceIdentifier.v ===== *)
(** * FaceIdentifier: [identify_face_by_center] (src/RCsolver.py, lines 65-80)

    A captured face is a list of colour letters in row-major order; its
    centre (index 4) names the face through a fixed table.  The function
    returns Python [None] for an empty list or one whose length is not 9,
    the string ['UNKNOWN'] for a centre outside the table, and the face
    name otherwise.  The face names are modelled as strings, as in the
    code; [slot] is the enumeration of the six names used to state the
    properties. *)

From S2P Require Import Prelude.

Module Identify.

(** The six face names of the net, in the order the facelet string is
    assembled (the solver's U, R, F, D, L, B). *)
Inductive slot := TOP | RIGHT | FRONT | BOTTOM | LEFT | BACK.

#[export] Instance slot_eq_dec : EqDecision slot.
Proof. solve_decision. Defined.

Definition slot_name (f : slot) : string :=
  match f with
  | TOP => "TOP" | RIGHT => "RIGHT" | FRONT => "FRONT"
  | BOTTOM => "BOTTOM" | LEFT => "LEFT" | BACK => "BACK"
  end.

Definition all_slots : list slot := [TOP; RIGHT; FRONT; BOTTOM; LEFT; BACK].

(** [face_mapping] of the code, in the order of its literal. *)
Definition face_mapping : list (string * string) :=
  [("W", "TOP"); ("G", "LEFT"); ("R", "FRONT");
   ("Y", "BOTTOM"); ("B", "RIGHT"); ("O", "BACK")].

Definition identify_face_by_center (face_colors : list string) : pyres (option string) :=
  if decide (face_colors = []) then pret None
  else if decide (length face_colors <> 9%nat) then pret None
  else
    center_color <-! py_getitem face_colors 4 ;;
    pret (Some (default "UNKNOWN" (dict_get face_mapping center_color))).

(** The colour scheme the table encodes. *)
Definition center_slot (c : color) : slot :=
  match c with
  | White => TOP | Green => LEFT | Red => FRONT
  | Yellow => BOTTOM | Blue => RIGHT | Orange => BACK
  end.

(** The centre colour of each slot: the inverse of [center_slot]. *)
Definition slot_color (f : slot) : color :=
  match f with
  | TOP => White | LEFT => Green | FRONT => Red
  | BOTTOM => Yellow | RIGHT => Blue | BACK => Orange
  end.

(** The abstract result of identification: no face (Python [None]), an
    unrecognised centre, or one of the six slots. *)
Inductive face_id := IdNone | IdUnknown | IdSlot (f : slot).

#[export] Instance face_id_eq_dec : EqDecision face_id.
Proof. solve_decision. Defined.

(** The Python value that represents each abstract result. *)
Definition face_id_value (r : face_id) : option string :=
  match r with
  | IdNone => None
  | IdUnknown => Some "UNKNOWN"
  | IdSlot f => Some (slot_name f)
  end.

Definition color_of_letter (x : string) : option color :=
  if decide (x = "W") then Some White
  else if decide (x = "Y") then Some Yellow
  else if decide (x = "O") then Some Orange
  else if decide (x = "R") then Some Red
  else if decide (x = "G") then Some Green
  else if decide (x = "B") then Some Blue
  else None.

(** What identification promises: a reading of nine letters is named by
    the slot of its centre colour, any other reading by nothing. *)
Definition identify_abs (face_colors : list string) : face_id :=
  if decide (length face_colors = 9%nat) then
    match face_colors !! 4%nat ≫= color_of_letter with
    | Some c => IdSlot (center_slot c)
    | None => IdUnknown
    end
  else IdNone.

(** ** Lemmas *)

Lemma color_of_letter_color (c : color) : color_of_letter (color_letter c) = Some c.
Proof. by destruct c. Qed.

Lemma color_of_letter_Some (x : string) (c : color) :
  color_of_letter x = Some c -> x = color_letter c.
Proof. unfold color_of_letter. intros H. by rc_decide. Qed.

#[export] Hint Rewrite color_of_letter_color : rcsolver.


Lemma slot_name_inj (f1 f2 : slot) : slot_name f1 = slot_name f2 -> f1 = f2.
Proof. destruct f1, f2; simpl; congruence. Qed.

Lemma slot_name_not_unknown (f : slot) : slot_name f <> "UNKNOWN".
Proof. by destruct f. Qed.

Lemma all_slots_complete (f : slot) : f ∈ all_slots.
Proof. destruct f; set_solver. Qed.

Lemma all_slots_NoDup : NoDup all_slots.
Proof. apply (bool_decide_unpack _). reflexivity. Qed.

Lemma center_slot_inj (c1 c2 : color) : center_slot c1 = center_slot c2 -> c1 = c2.
Proof. destruct c1, c2; simpl; congruence. Qed.

Lemma center_slot_color (f : slot) : center_slot (slot_color f) = f.
Proof. by destruct f. Qed.

Lemma slot_color_center (c : color) : slot_color (center_slot c) = c.
Proof. by destruct c. Qed.

Lemma face_mapping_color (c : color) :
  dict_get face_mapping (color_letter c) = Some (slot_name (center_slot c)).
Proof. by destruct c. Qed.

Lemma face_mapping_Some (k v : string) :
  dict_get face_mapping k = Some v -> exists c, k = color_letter c /\ v = slot_name (center_slot c).
Proof.
  unfold face_mapping. simpl. intros H. rc_decide;
    [exists White | exists Green | exists Red | exists Yellow | exists Blue | exists Orange];
    done.
Qed.

#[export] Hint Resolve all_slots_complete slot_name_not_unknown : rcsolver.

(** A list of nine entries has its centre at index 4. *)
Lemma nine_center {A} (l : list A) :
  length l = 9%nat -> exists x, l !! 4%nat = Some x /\ py_getitem l 4 = inr x.
Proof.
  intros Hl. destruct (l !! 4%nat) as [x|] eqn:E;
    [| apply lookup_ge_None in E; lia].
  exists x. split; [done|]. exact (py_getitem_nat l 4 x E).
Qed.

Lemma face_mapping_get (x : string) :
  dict_get face_mapping x = (λ c, slot_name (center_slot c)) <$> color_of_letter x.
Proof.
  destruct (color_of_letter x) as [c|] eqn:E; simpl.
  - apply color_of_letter_Some in E as ->. apply face_mapping_color.
  - destruct (dict_get face_mapping x) as [v|] eqn:F; [|done].
    apply face_mapping_Some in F as (c & -> & _).
    by rewrite color_of_letter_color in E.
Qed.

Lemma identify_face_by_center_eq (face_colors : list string) :
  identify_face_by_center face_colors = inr (face_id_value (identify_abs face_colors)).
Proof.
  unfold identify_face_by_center, identify_abs.
  destruct (decide (face_colors = [])) as [->|Hne]; [done|].
  destruct (decide (length face_colors = 9%nat)) as [Hlen|Hlen];
    [rewrite decide_False by lia | by rewrite decide_True].
  destruct (nine_center face_colors Hlen) as (x & Hx & ->). cbn [pbind pret].
  rewrite Hx, face_mapping_get. cbn [mbind option_bind].
  by destruct (color_of_letter x).
Qed.

(** ** Properties *)

(** C5.  [identify_face_by_center] refines [identify_abs]: it never
    raises; it returns [None] for a reading that is empty or not of
    length 9, the name of the centre colour's slot for a nine-letter
    reading with a centre of the scan palette, and ['UNKNOWN'] for any
    other centre. *)
Theorem identify_face_by_center_refines (face_colors : list string) :
  identify_face_by_center face_colors = inr (face_id_value (identify_abs face_colors)).
Proof. apply identify_face_by_center_eq. Qed.

Example identify_white_center :
  identify_face_by_center ["G"; "G"; "R"; "W"; "W"; "B"; "O"; "Y"; "W"] = inr (Some "TOP").
Proof. reflexivity. Qed.

Example identify_black_center :
  identify_face_by_center ["W"; "W"; "W"; "W"; "K"; "W"; "W"; "W"; "W"] = inr (Some "UNKNOWN").
Proof. reflexivity. Qed.

Example identify_short :
  identify_face_by_center ["W"; "W"; "W"; "W"; "W"; "W"; "W"; "W"] = inr None.
Proof. reflexivity. Qed.

End Identify.
