(* ===== verification/ScanOrchestrator.v ===== *)
(** * ScanOrchestrator: the scanning loop of [flexible_cube_scanner]
    (src/RCsolver.py, lines 152-212)

    The loop keeps the dict [all_faces] (face name -> reading), the
    counter [face_count] and writes to the console.  Each iteration
    prints the prompt, calls [scan_single_face], and either rejects the
    attempt (no reading, unknown centre, face already scanned) or binds
    the face.  The loop runs while fewer than six faces are bound; then
    the facelet string is assembled in the order TOP, RIGHT, FRONT,
    BOTTOM, LEFT, BACK.

    The camera session is reached through the class [FaceScanner]: an
    attempt is an input of some type, and [scan_face] gives the lines the
    session printed and its result (Python [None] or a list).
    [FaceScannerOk] is what the session promises the loop: a list it
    returns is empty or nine colour letters.  CaptureSession.v provides
    the instance for the real session.  The loop is run over a finite
    list of attempts; when the list is exhausted before six faces are
    bound the result is [LoopBlocked]: the program is waiting for the
    operator. *)

From S2P Require Import Prelude FaceIdentifier PaletteTranslator.
Import Identify Palette.

Module Orchestrator.

(** ** The interface to the capture session *)

Class FaceScanner (Inp : Type) :=
  scan_face : Inp -> pyres (list string * option (list string)).

Definition reading_ok (l : list string) : Prop :=
  length l = 9%nat /\ Forall (λ x, exists c, x = color_letter c) l.

Class FaceScannerOk (Inp : Type) `{FaceScanner Inp} :=
  scan_face_shape : forall i out l,
    scan_face i = inr (out, Some l) -> l = [] \/ reading_ok l.

(** ** State *)

Record scan_state := mk_scan {
  all_faces : list (option string * list string);
  face_count : Z;
  out : list string
}.

Definition init_state : scan_state := mk_scan [] 0 ["cube scanner starting"].

Definition required_faces : list string := slot_name <$> all_slots.

(** [[face for face in required_faces if face not in all_faces]] *)
Definition missing_faces (faces : list (option string * list string)) : list string :=
  filter (λ f, Some f ∉ dict_keys faces) required_faces.

Definition print (st : scan_state) (lines : list string) : scan_state :=
  mk_scan (all_faces st) (face_count st) (out st ++ lines).

Definition set_count (st : scan_state) (n : Z) : scan_state :=
  mk_scan (all_faces st) n (out st).

(** ** One iteration (lines 161-199)

    [scan_iteration_begin] runs the body up to the [input] prompt;
    [scan_iteration_finish] handles the session's result. *)
Definition scan_iteration_begin (st : scan_state) : scan_state :=
  let n := (face_count st + 1)%Z in
  let missing := missing_faces (all_faces st) in
  print (set_count st n)
    ([nl +:+ "scanning face " +:+ py_str_int n; "position any face toward camera"]
     ++ (if decide (missing = []) then [] else ["still need: " +:+ String.concat ", " missing])
     ++ ["press enter when ready..."]).

Definition retry (st : scan_state) (lines : list string) : scan_state :=
  set_count (print st lines) (face_count st - 1)%Z.

Definition scan_iteration_finish (st : scan_state)
    (r : list string * option (list string)) : pyres scan_state :=
  let st := print st r.1 in
  match r.2 with
  | None | Some [] => pret (retry st ["scan failed, try again"])
  | Some face_colors =>
      face_name <-! identify_face_by_center face_colors ;;
      if decide (face_name = Some "UNKNOWN") then
        center <-! py_getitem face_colors 4 ;;
        pret (retry st ["unknown center color: " +:+ center])
      else if decide (face_name ∈ dict_keys (all_faces st)) then
        pret (retry st ["already scanned " +:+ py_str_opt face_name; "try different face"])
      else
        let faces := dict_set (all_faces st) face_name face_colors in
        completed <-! py_join_opt ", " (dict_keys faces) ;;
        let remaining := missing_faces faces in
        pret (mk_scan faces (face_count st)
                (out st ++ ["identified as " +:+ py_str_opt face_name;
                            "colors: " +:+ String.concat "" face_colors;
                            "completed: " +:+ completed]
                 ++ (if decide (remaining = []) then []
                     else ["remaining: " +:+ String.concat ", " remaining])))
  end.

(** ** The loop (line 160) *)

Inductive loop_result (Inp : Type) :=
| LoopDone (st : scan_state) (rest : list Inp)
| LoopBlocked (st : scan_state)
| LoopCrash (e : py_exc) (st : scan_state).

Arguments LoopDone {Inp}. Arguments LoopBlocked {Inp}. Arguments LoopCrash {Inp}.

Section Loop.
Context {Inp : Type} `{FaceScanner Inp}.

Definition scan_attempt (st : scan_state) (i : Inp) : pyres scan_state :=
  r <-! scan_face i ;; scan_iteration_finish (scan_iteration_begin st) r.

Fixpoint scan_loop (st : scan_state) (inputs : list Inp) : loop_result Inp :=
  if decide (length (all_faces st) < 6)%nat then
    match inputs with
    | [] => LoopBlocked (scan_iteration_begin st)
    | i :: rest =>
        match scan_attempt st i with
        | inl e => LoopCrash e (scan_iteration_begin st)
        | inr st' => scan_loop st' rest
        end
    end
  else LoopDone st inputs.
End Loop.

(** ** Assembly of the facelet string (lines 201-212) *)

Definition ordered_faces : list string := required_faces.

Fixpoint assemble_from (faces : list (option string * list string))
    (names : list string) (cube_string : string) (lines : list string)
    : pyres (string * list string) :=
  match names with
  | [] => inr (cube_string, lines ++ [nl +:+ "complete cube: " +:+ cube_string])
  | face_name :: names' =>
      face_colors <-! dict_getitem faces (Some face_name) ;;
      assemble_from faces names' (cube_string +:+ String.concat "" face_colors)
        (lines ++ [face_name +:+ ": " +:+ String.concat "" face_colors])
  end.

Definition assemble_cube_string (st : scan_state) : pyres (string * list string) :=
  assemble_from (all_faces st) ordered_faces "" (out st ++ [nl +:+ "all faces scanned"]).

(** ** The loop invariant *)

(** A bound entry: the key is the slot of the reading's centre colour,
    and the reading is nine colour letters. *)
Definition entry_ok (e : option string * list string) : Prop :=
  reading_ok e.2 /\
  exists c, e.2 !! 4%nat = Some (color_letter c) /\ e.1 = Some (slot_name (center_slot c)).

Definition faces_inv (faces : list (option string * list string)) : Prop :=
  NoDup (dict_keys faces) /\ Forall entry_ok faces.

(** Between iterations the counter is the number of bound faces. *)
Definition scan_inv (st : scan_state) : Prop :=
  faces_inv (all_faces st) /\ face_count st = Z.of_nat (length (all_faces st)).

(** ** Lemmas on one iteration *)

Lemma begin_faces st : all_faces (scan_iteration_begin st) = all_faces st.
Proof. reflexivity. Qed.

Lemma begin_count st : face_count (scan_iteration_begin st) = (face_count st + 1)%Z.
Proof. reflexivity. Qed.

Lemma reading_ok_center (l : list string) :
  reading_ok l -> exists c, l !! 4%nat = Some (color_letter c).
Proof.
  intros [Hlen Hall]. destruct (nine_center l Hlen) as (x & Hx & _).
  rewrite Forall_lookup in Hall. destruct (Hall _ _ Hx) as [c ->]. by exists c.
Qed.

Lemma identify_reading_ok (l : list string) (c : color) :
  reading_ok l -> l !! 4%nat = Some (color_letter c) ->
  identify_face_by_center l = inr (Some (slot_name (center_slot c))).
Proof.
  intros [Hlen _] Hc. rewrite identify_face_by_center_eq.
  unfold identify_abs. rewrite decide_True by done. rewrite Hc. simpl.
  by rewrite color_of_letter_color.
Qed.

Lemma entry_ok_key_Some e : entry_ok e -> is_Some e.1.
Proof. intros (_ & c & _ & ->). by eexists. Qed.

Lemma keys_all_Some faces :
  Forall entry_ok faces -> Forall (λ k, is_Some k) (dict_keys faces).
Proof.
  intros H. apply Forall_fmap. eapply Forall_impl; [exact H|].
  intros e. apply entry_ok_key_Some.
Qed.

(** A reading whose slot is already bound is rejected. *)
Lemma finish_duplicate st out l c :
  reading_ok l -> l !! 4%nat = Some (color_letter c) ->
  Some (slot_name (center_slot c)) ∈ dict_keys (all_faces st) ->
  scan_iteration_finish st (out, Some l) =
  inr (retry (print st out)
         ["already scanned " +:+ slot_name (center_slot c); "try different face"]).
Proof.
  intros Hok Hc Hin. destruct l as [|x l]; [destruct Hok as [Hl _]; done|].
  unfold scan_iteration_finish. cbn [fst snd].
  rewrite (identify_reading_ok _ c Hok Hc). cbn [pbind].
  rewrite decide_False by (intros [=]; by apply (slot_name_not_unknown (center_slot c))).
  by rewrite decide_True.
Qed.

(** A reading of a new slot is bound at the end of the dict. *)
Lemma finish_new st out l c :
  Forall entry_ok (all_faces st) ->
  reading_ok l -> l !! 4%nat = Some (color_letter c) ->
  Some (slot_name (center_slot c)) ∉ dict_keys (all_faces st) ->
  exists st', scan_iteration_finish st (out, Some l) = inr st' /\
    all_faces st' = all_faces st ++ [(Some (slot_name (center_slot c)), l)] /\
    face_count st' = face_count st.
Proof.
  intros Hinv Hok Hc Hnin. destruct l as [|x l]; [destruct Hok as [Hl _]; done|].
  unfold scan_iteration_finish. cbn [fst snd].
  rewrite (identify_reading_ok _ c Hok Hc). cbn [pbind].
  rewrite decide_False by (intros [=]; by apply (slot_name_not_unknown (center_slot c))).
  rewrite decide_False by done.
  rewrite dict_set_new by done.
  destruct (py_join_opt_all_Some ", "
              (dict_keys (all_faces (print st out) ++ [(Some (slot_name (center_slot c)), x :: l)])))
    as [j ->].
  { rewrite dict_keys_app. apply Forall_app. split; [by apply keys_all_Some|].
    repeat constructor. by eexists. }
  by eexists.
Qed.

Lemma finish_fail st out :
  scan_iteration_finish st (out, None) = inr (retry (print st out) ["scan failed, try again"]) /\
  scan_iteration_finish st (out, Some []) = inr (retry (print st out) ["scan failed, try again"]).
Proof. split; reflexivity. Qed.

(** ** Lemmas on the bound faces *)

Definition slot_keys : list (option string) := (λ f, Some (slot_name f)) <$> all_slots.

Lemma slot_keys_NoDup : NoDup slot_keys.
Proof. apply (bool_decide_unpack _). reflexivity. Qed.

Lemma slot_key_elem (f : slot) : Some (slot_name f) ∈ slot_keys.
Proof. apply list_elem_of_fmap. exists f. split; [done | apply all_slots_complete]. Qed.

Lemma faces_inv_keys faces k :
  faces_inv faces -> k ∈ dict_keys faces -> k ∈ slot_keys.
Proof.
  intros [_ Hok] Hk. apply list_elem_of_fmap in Hk as (e & -> & He).
  rewrite Forall_forall in Hok. destruct (Hok e He) as (_ & c & _ & ->).
  apply slot_key_elem.
Qed.

Lemma faces_inv_length faces : faces_inv faces -> (length faces <= 6)%nat.
Proof.
  intros Hinv. rewrite <- (length_map fst faces).
  change 6%nat with (length slot_keys).
  apply NoDup_incl_length; [apply NoDup_ListNoDup, (proj1 Hinv)|].
  intros k Hk. apply list_elem_of_In, (faces_inv_keys faces); [done|].
  by apply list_elem_of_In.
Qed.

(** All six slots are bound exactly when six faces are. *)
Lemma faces_inv_full faces :
  faces_inv faces ->
  (forall f, Some (slot_name f) ∈ dict_keys faces) <-> length faces = 6%nat.
Proof.
  intros Hinv. pose proof (faces_inv_length faces Hinv). split.
  - intros Hall. enough (6 <= length faces)%nat by lia.
    rewrite <- (length_map fst faces). change 6%nat with (length slot_keys).
    apply NoDup_incl_length; [apply NoDup_ListNoDup, slot_keys_NoDup|].
    intros k Hk. apply list_elem_of_In in Hk.
    apply list_elem_of_fmap in Hk as (f & -> & _). apply list_elem_of_In, Hall.
  - intros Hlen f. apply list_elem_of_In.
    apply (NoDup_length_incl (l:=dict_keys faces) (l':=slot_keys));
      [apply NoDup_ListNoDup, (proj1 Hinv) | unfold dict_keys; rewrite length_map; simpl; lia | |
       apply list_elem_of_In, slot_key_elem].
    intros k Hk. apply list_elem_of_In, (faces_inv_keys faces); [done|].
    by apply list_elem_of_In.
Qed.

Lemma faces_inv_snoc faces l c :
  faces_inv faces -> reading_ok l -> l !! 4%nat = Some (color_letter c) ->
  Some (slot_name (center_slot c)) ∉ dict_keys faces ->
  faces_inv (faces ++ [(Some (slot_name (center_slot c)), l)]).
Proof.
  intros [Hnd Hok] Hl Hc Hnin. split.
  - rewrite dict_keys_app. apply NoDup_app. split; [done|]. split; [|apply NoDup_singleton].
    intros k Hk ->%list_elem_of_singleton. by apply Hnin.
  - apply Forall_app. split; [done|]. apply Forall_singleton. split; [apply Hl|]. by exists c.
Qed.

(** Compute the fields of a state built by the iteration's helpers. *)
Ltac state_fields :=
  unfold scan_inv;
  cbn [retry print set_count scan_iteration_begin all_faces face_count out].

Section Attempt.
Context {Inp : Type} `{FaceScannerOk Inp}.

(** One attempt from a state of the invariant: it does not raise when
    the session does not, keeps the invariant, leaves the bound faces
    alone or appends one face of a new slot, and a valid reading ends
    with its slot bound. *)
Lemma attempt_step st i r :
  scan_inv st -> scan_face i = inr r ->
  exists st', scan_attempt st i = inr st' /\ scan_inv st' /\
    (all_faces st' = all_faces st \/
     (exists k l, k ∉ dict_keys (all_faces st) /\ all_faces st' = all_faces st ++ [(k, l)])) /\
    (forall l c, r.2 = Some l -> reading_ok l -> l !! 4%nat = Some (color_letter c) ->
       Some (slot_name (center_slot c)) ∈ dict_keys (all_faces st')).
Proof.
  intros [Hfi Hcount] Hi. destruct r as [o res].
  unfold scan_attempt. rewrite Hi. cbn [pbind].
  destruct res as [l|].
  2: { eexists; split; [apply finish_fail|]. state_fields. split; [split; [done|lia]|].
       split; [by left | done]. }
  destruct (scan_face_shape i o l Hi) as [->|Hl].
  { eexists; split; [apply finish_fail|]. state_fields. split; [split; [done|lia]|].
    split; [by left|]. intros l c [= <-] [Hlen _]. done. }
  destruct (reading_ok_center l Hl) as [c Hc].
  destruct (decide (Some (slot_name (center_slot c)) ∈ dict_keys (all_faces st))) as [Hin|Hnin].
  - eexists; split; [by apply finish_duplicate|]. state_fields. split; [split; [done|lia]|].
    split; [by left|]. intros l' c' [= <-] _ Hc'. rewrite Hc in Hc'.
    injection Hc' as Hc'. apply color_char_inj in Hc' as <-. done.
  - destruct (finish_new (scan_iteration_begin st) o l c) as (st' & Hst' & Hf & Hn);
      [apply Hfi | done | done | done |].
    exists st'. split; [done|]. unfold scan_inv. rewrite Hf, Hn. state_fields.
    split; [split; [by apply faces_inv_snoc | rewrite length_app; simpl; lia]|].
    split; [right; by eexists _, _|].
    intros l' c' [= <-] _ Hc'. rewrite Hc in Hc'.
    injection Hc' as Hc'. apply color_char_inj in Hc' as <-.
    rewrite dict_keys_app. apply elem_of_app. right. by left.
Qed.
Lemma keys_grow (faces faces' : list (option string * list string)) k :
  (faces' = faces \/ (exists k' l, k' ∉ dict_keys faces /\ faces' = faces ++ [(k', l)])) ->
  k ∈ dict_keys faces -> k ∈ dict_keys faces'.
Proof.
  intros [-> | (k' & l & _ & ->)] Hk; [done|].
  rewrite dict_keys_app. apply elem_of_app. by left.
Qed.

Lemma scan_loop_unfold st i rest :
  (length (all_faces st) < 6)%nat ->
  scan_loop st (i :: rest) =
  match scan_attempt st i with
  | inl e => LoopCrash e (scan_iteration_begin st)
  | inr st' => scan_loop st' rest
  end.
Proof. intros Hlt. cbn [scan_loop]. by rewrite decide_True. Qed.

Lemma scan_attempt_raise st i e :
  scan_face i = inl e -> scan_attempt st i = inl e.
Proof. intros Hi. unfold scan_attempt. by rewrite Hi. Qed.

(** The state a loop result carries. *)
Definition loop_state (r : loop_result Inp) : scan_state :=
  match r with LoopDone st _ | LoopBlocked st | LoopCrash _ st => st end.

(** An exception of the loop is one a session raised. *)
Lemma scan_loop_raise_source st inputs e st' :
  scan_inv st -> scan_loop st inputs = LoopCrash e st' ->
  exists i, i ∈ inputs /\ scan_face i = inl e.
Proof.
  revert st. induction inputs as [|i rest IH]; intros st Hinv Hrun.
  - cbn in Hrun. by case_decide.
  - destruct (decide (length (all_faces st) < 6)%nat) as [Hlt|Hge];
      [rewrite scan_loop_unfold in Hrun by done | cbn in Hrun; by rewrite decide_False in Hrun].
    destruct (scan_face i) as [e'|r] eqn:Hi.
    + rewrite (scan_attempt_raise st i e') in Hrun by done. injection Hrun as <- _.
      exists i. split; [left | done].
    + destruct (attempt_step st i r Hinv Hi) as (st1 & Hst1 & Hinv1 & _).
      rewrite Hst1 in Hrun. destruct (IH st1 Hinv1 Hrun) as (j & Hj & Hje).
      exists j. split; [by right | done].
Qed.

(** C6.  The loop itself never raises: from a state of the invariant,
    the loop ends with an exception only when [scan_single_face]
    raised it on one of the attempts.  The [IndexError] of
    [face_colors[4]], the [TypeError] of joining a [None] key and the
    [None] key itself are unreachable. *)
Theorem scan_loop_no_crash st inputs e st' :
  scan_inv st -> scan_loop st inputs = LoopCrash e st' ->
  exists i, i ∈ inputs /\ scan_face i = inl e.
Proof. apply scan_loop_raise_source. Qed.

(** The loop keeps the invariant in each of its outcomes. *)
Lemma scan_loop_keeps_inv st inputs :
  scan_inv st ->
  faces_inv (all_faces (loop_state (scan_loop st inputs))) /\
  (forall st' rest, scan_loop st inputs = LoopDone st' rest ->
     scan_inv st' /\ length (all_faces st') = 6%nat) /\
  (forall st', scan_loop st inputs = LoopBlocked st' \/
               (exists e, scan_loop st inputs = LoopCrash e st') ->
     face_count st' = (Z.of_nat (length (all_faces st')) + 1)%Z).
Proof.
  revert st. induction inputs as [|i rest IH]; intros st Hinv.
  - destruct (decide (length (all_faces st) < 6)%nat) as [Hlt|Hge].
    + cbn. rewrite decide_True by done. destruct Hinv as [Hfi Hc].
      split; [done|]. split; [done|].
      intros st' [[= <-] | [e [=]]]. cbn. lia.
    + cbn. rewrite decide_False by done. split; [apply Hinv|].
      split; [|intros st' [[=] | [e [=]]]].
      intros st' rest [= <- <-]. split; [done|].
      pose proof (faces_inv_length _ (proj1 Hinv)). lia.
  - destruct (decide (length (all_faces st) < 6)%nat) as [Hlt|Hge].
    + rewrite scan_loop_unfold by done.
      destruct (scan_face i) as [e|r] eqn:Hi.
      * rewrite (scan_attempt_raise st i e) by done. destruct Hinv as [Hfi Hc].
        split; [done|]. split; [done|].
        intros st' [[=] | [e' [= _ <-]]]. cbn. lia.
      * destruct (attempt_step st i r Hinv Hi) as (st1 & -> & Hinv1 & _).
        by apply IH.
    + cbn. rewrite decide_False by done. split; [apply Hinv|].
      split; [|intros st' [[=] | [e [=]]]].
      intros st' rest' [= <- <-]. split; [done|].
      pose proof (faces_inv_length _ (proj1 Hinv)). lia.
Qed.

(** C7.  The loop keeps the invariant: in every outcome no face name is
    bound twice and every bound reading is nine colour letters filed
    under the slot of its centre; when the loop ends, six faces are
    bound and [face_count] is 6; when it waits for the operator or a
    session raised, [face_count] is one more than the bound faces (the
    iteration in progress). *)
Theorem scan_loop_invariant st inputs :
  scan_inv st ->
  faces_inv (all_faces (loop_state (scan_loop st inputs))) /\
  (forall st' rest, scan_loop st inputs = LoopDone st' rest ->
     scan_inv st' /\ length (all_faces st') = 6%nat) /\
  (forall st', scan_loop st inputs = LoopBlocked st' \/
               (exists e, scan_loop st inputs = LoopCrash e st') ->
     face_count st' = (Z.of_nat (length (all_faces st')) + 1)%Z).
Proof. apply scan_loop_keeps_inv. Qed.

(** An attempt that shows the face of slot [f]. *)
Definition shows (i : Inp) (f : slot) : Prop :=
  exists o l c, scan_face i = inr (o, Some l) /\
    l !! 4%nat = Some (color_letter c) /\ center_slot c = f.

(** A loop over attempts that show every missing slot ends. *)
Lemma scan_loop_complete_run st inputs :
  scan_inv st ->
  (forall i, i ∈ inputs -> exists r, scan_face i = inr r) ->
  (forall f, Some (slot_name f) ∈ dict_keys (all_faces st) \/
             exists i, i ∈ inputs /\ shows i f) ->
  exists st' rest, scan_loop st inputs = LoopDone st' rest /\
    forall f, Some (slot_name f) ∈ dict_keys (all_faces st').
Proof.
  revert st. induction inputs as [|i rest IH]; intros st Hinv Hok Hcov.
  - assert (Hall : forall f, Some (slot_name f) ∈ dict_keys (all_faces st)).
    { intros f. destruct (Hcov f) as [|(i & Hi & _)]; [done|]. by apply elem_of_nil in Hi. }
    pose proof (proj1 (faces_inv_full _ (proj1 Hinv)) Hall) as Hlen.
    exists st, []. split; [|done]. cbn. rewrite decide_False by lia. done.
  - destruct (decide (length (all_faces st) < 6)%nat) as [Hlt|Hge].
    2: { exists st, (i :: rest). split; [cbn; by rewrite decide_False|].
         apply (faces_inv_full _ (proj1 Hinv)).
         pose proof (faces_inv_length _ (proj1 Hinv)). lia. }
    rewrite scan_loop_unfold by done.
    destruct (Hok i (list_elem_of_here _ _)) as [r Hi].
    destruct (attempt_step st i r Hinv Hi) as (st1 & -> & Hinv1 & Hgrow & Hbind).
    apply IH; [done | intros j Hj; apply Hok; by right|].
    intros f. destruct (Hcov f) as [Hin | (j & Hj & Hshow)].
    + left. by apply (keys_grow _ _ _ Hgrow).
    + apply elem_of_cons in Hj as [-> | Hj]; [|right; by exists j].
      left. destruct Hshow as (o & l & c & Hi' & Hc & <-).
      destruct (scan_face_shape i o l Hi') as [->|Hl]; [done|].
      rewrite Hi in Hi'. injection Hi' as ->.
      by apply (Hbind l c).
Qed.

(** C8.  Liveness of the scan loop: when no session raises and every
    slot not yet bound is shown by some attempt of the list, the loop
    ends within the list ([LoopDone]), with all six slots bound. *)
Theorem scan_loop_completes st inputs :
  scan_inv st ->
  (forall i, i ∈ inputs -> exists r, scan_face i = inr r) ->
  (forall f, Some (slot_name f) ∈ dict_keys (all_faces st) \/
             exists i, i ∈ inputs /\ shows i f) ->
  exists st' rest, scan_loop st inputs = LoopDone st' rest /\
    forall f, Some (slot_name f) ∈ dict_keys (all_faces st').
Proof. apply scan_loop_complete_run. Qed.
End Attempt.

(** C9.  A face whose slot is already bound is rejected: the attempt
    prints "already scanned" and "try different face", leaves the bound
    faces as they were and gives back the counter increment; the slot is
    never bound a second time. *)
Theorem scan_attempt_duplicate {Inp} `{FaceScanner Inp} st i o l c :
  scan_face i = inr (o, Some l) -> reading_ok l -> l !! 4%nat = Some (color_letter c) ->
  Some (slot_name (center_slot c)) ∈ dict_keys (all_faces st) ->
  exists st', scan_attempt st i = inr st' /\ all_faces st' = all_faces st /\
    face_count st' = face_count st /\
    out st' = out (scan_iteration_begin st) ++ o ++
              ["already scanned " +:+ slot_name (center_slot c); "try different face"].
Proof.
  intros Hi Hl Hc Hin. unfold scan_attempt. rewrite Hi. cbn [pbind].
  rewrite (finish_duplicate _ o l c) by done. eexists; split; [done|].
  cbn [retry print set_count all_faces face_count out scan_iteration_begin].
  split; [done|]. split; [lia|]. by rewrite !app_assoc.
Qed.

(** ** A scripted camera session, for concrete runs

    [StubShow cs] shows a face with stickers [cs]; [StubLost] loses the
    frame before a capture (the session returns an empty list);
    [StubQuit] quits; [StubRaise] stands for a session that raised. *)
Inductive stub_attempt := StubQuit | StubLost | StubRaise | StubShow (cs : list color).

#[export] Instance stub_scanner : FaceScanner stub_attempt := λ a,
  match a with
  | StubQuit => inr ([], None)
  | StubLost => inr ([], Some [])
  | StubRaise => inl IndexError
  | StubShow cs => inr ([], Some (if decide (length cs = 9%nat) then color_letter <$> cs else []))
  end.

#[export] Instance stub_scanner_ok : FaceScannerOk stub_attempt.
Proof.
  intros [| | |cs] o l; unfold scan_face, stub_scanner; try discriminate.
  - intros [= _ <-]. by left.
  - destruct (decide (length cs = 9%nat)); intros [= _ <-]; [right|by left].
    split; [by rewrite length_fmap|].
    apply Forall_fmap, Forall_forall. intros c _. by exists c.
Qed.

Definition face_of (c : color) : stub_attempt := StubShow (replicate 9 c).

Lemma init_state_inv : scan_inv init_state.
Proof. split; [split; constructor | reflexivity]. Qed.

(** Six faces shown, with a lost frame, a quit and a repeated face among
    them. *)
Definition six_faces_run : list stub_attempt :=
  [face_of White; StubLost; face_of Blue; face_of White; face_of Red; StubQuit;
   face_of Yellow; face_of Green; face_of Orange].

Example six_faces_run_done :
  match scan_loop init_state six_faces_run with
  | LoopDone st [] => face_count st = 6%Z /\ length (all_faces st) = 6%nat
  | _ => False
  end.
Proof. vm_compute. split; reflexivity. Qed.

Lemma scan_loop_no_crash_witness :
  exists i, i ∈ [StubRaise] /\ scan_face i = inl IndexError.
Proof.
  apply (scan_loop_no_crash init_state [StubRaise] IndexError (scan_iteration_begin init_state));
    [apply init_state_inv | vm_compute; reflexivity].
Defined.

Lemma scan_loop_invariant_witness :
  faces_inv (all_faces (loop_state (scan_loop init_state six_faces_run))) /\
  (forall st' rest, scan_loop init_state six_faces_run = LoopDone st' rest ->
     scan_inv st' /\ length (all_faces st') = 6%nat) /\
  (forall st', scan_loop init_state six_faces_run = LoopBlocked st' \/
               (exists e, scan_loop init_state six_faces_run = LoopCrash e st') ->
     face_count st' = (Z.of_nat (length (all_faces st')) + 1)%Z).
Proof. apply scan_loop_invariant, init_state_inv. Defined.

Lemma scan_loop_completes_witness :
  exists st' rest, scan_loop init_state six_faces_run = LoopDone st' rest /\
    forall f, Some (slot_name f) ∈ dict_keys (all_faces st').
Proof.
  apply scan_loop_completes; [apply init_state_inv | |].
  - intros i Hi. repeat (apply elem_of_cons in Hi as [->|Hi]; [by eexists|]).
    by apply elem_of_nil in Hi.
  - intros f. right. destruct f.
    + exists (face_of White). split; [by repeat constructor|]. by do 3 eexists.
    + exists (face_of Blue). split; [by repeat constructor|]. by do 3 eexists.
    + exists (face_of Red). split; [by repeat constructor|]. by do 3 eexists.
    + exists (face_of Yellow). split; [by repeat constructor|]. by do 3 eexists.
    + exists (face_of Green). split; [by repeat constructor|]. by do 3 eexists.
    + exists (face_of Orange). split; [by repeat constructor|]. by do 3 eexists.
Defined.

(** The state after the white face was bound. *)
Definition one_face_state : scan_state :=
  mk_scan [(Some "TOP", color_letter <$> replicate 9 White)] 1 [].

Lemma scan_attempt_duplicate_witness :
  exists st', scan_attempt one_face_state (face_of White) = inr st' /\
    all_faces st' = all_faces one_face_state /\
    face_count st' = face_count one_face_state /\
    out st' = out (scan_iteration_begin one_face_state) ++ [] ++
              ["already scanned " +:+ slot_name (center_slot White); "try different face"].
Proof.
  apply (scan_attempt_duplicate one_face_state (face_of White) [] (color_letter <$> replicate 9 White) White);
    [reflexivity | | reflexivity | by left].
  split; [reflexivity|]. apply Forall_fmap, Forall_forall. intros c _. by exists c.
Defined.

(** ** The assembled facelet string *)

(** The reading bound under a face name ([all_faces[name]]). *)
Definition face_reading (faces : list (option string * list string)) (name : string)
    : list string :=
  default [] (dict_get faces (Some name)).

(** The characters of a reading joined with [''.join]. *)
Definition reading_chars (r : list string) : list ascii :=
  concat (String.list_ascii_of_string <$> r).

Lemma assemble_from_ok faces names cube lines :
  (forall n, n ∈ names -> is_Some (dict_get faces (Some n))) ->
  exists lines', assemble_from faces names cube lines =
    inr (cube +:+ String.concat "" ((λ n, String.concat "" (face_reading faces n)) <$> names),
         lines').
Proof.
  revert cube lines. induction names as [|n names IH]; intros cube lines Hall.
  - eexists. simpl. f_equal. f_equal. string_as_list. by rewrite app_nil_r.
  - destruct (Hall n (list_elem_of_here _ _)) as [v Hv].
    cbn [assemble_from]. unfold dict_getitem. rewrite Hv. cbn [pbind].
    destruct (IH (cube +:+ String.concat "" v)
                (lines ++ [n +:+ ": " +:+ String.concat "" v])) as [lines' ->];
      [intros m Hm; apply Hall; by right|].
    assert (Hn : face_reading faces n = v) by (unfold face_reading; by rewrite Hv).
    eexists. f_equal. f_equal. apply string_list_inj.
    rewrite !string_append_list, !string_concat_empty. cbn [fmap list_fmap concat].
    rewrite Hn, string_concat_empty. by rewrite <- app_assoc.
Qed.

(** A name left unbound makes the assembly raise KeyError. *)
Lemma assemble_from_missing faces names cube lines n :
  n ∈ names -> dict_get faces (Some n) = None ->
  assemble_from faces names cube lines = inl KeyError.
Proof.
  revert cube lines. induction names as [|m names IH]; intros cube lines Hn Hget;
    [by apply elem_of_nil in Hn|].
  cbn [assemble_from]. unfold dict_getitem.
  apply elem_of_cons in Hn as [->|Hn]; [by rewrite Hget|].
  destruct (dict_get faces (Some m)); [|done]. by apply IH.
Qed.

Lemma bound_reading faces f :
  faces_inv faces -> Some (slot_name f) ∈ dict_keys faces ->
  reading_ok (face_reading faces (slot_name f)) /\
  face_reading faces (slot_name f) !! 4%nat = Some (color_letter (slot_color f)).
Proof.
  intros [_ Hok] Hin. unfold face_reading.
  destruct (dict_get faces (Some (slot_name f))) as [v|] eqn:Hv;
    [| by apply dict_get_None in Hv].
  apply dict_get_elem in Hv. rewrite Forall_forall in Hok.
  destruct (Hok _ Hv) as (Hr & c & Hc & Hk). simpl in *.
  injection Hk as Hk. apply slot_name_inj in Hk. subst f.
  rewrite slot_color_center. done.
Qed.

Lemma reading_chars_ok (r : list string) :
  reading_ok r ->
  length (reading_chars r) = 9%nat /\ Forall (.∈ scan_palette) (reading_chars r) /\
  forall i c, r !! i = Some (color_letter c) -> reading_chars r !! i = Some (color_char c).
Proof.
  intros [Hlen Hall]. destruct (letters_colors r Hall) as [cs ->].
  unfold reading_chars. rewrite color_letters_chars. rewrite length_fmap in Hlen.
  split; [by rewrite length_fmap|]. split.
  - apply Forall_fmap, Forall_forall. intros c _.
    apply list_elem_of_fmap. exists c. split; [done | apply all_colors_complete].
  - intros i c Hi. apply list_lookup_fmap_Some in Hi as (c' & Heq & Hc').
    apply color_letter_inj in Heq as ->. by rewrite list_lookup_fmap, Hc'.
Qed.

(** The characters of the assembled string: the readings of the six
    slots in the order of [all_slots]. *)
Definition cube_blocks (faces : list (option string * list string)) : list (list ascii) :=
  (λ f, reading_chars (face_reading faces (slot_name f))) <$> all_slots.

Lemma cube_blocks_ok faces :
  faces_inv faces -> (forall f, Some (slot_name f) ∈ dict_keys faces) ->
  Forall (λ b, length b = 9%nat /\ Forall (.∈ scan_palette) b) (cube_blocks faces) /\
  forall k f, all_slots !! k = Some f ->
    cube_blocks faces !! k ≫= (λ b, b !! 4%nat) = Some (color_char (slot_color f)).
Proof.
  intros Hinv Hall. split.
  - apply Forall_fmap, Forall_forall. intros f _.
    destruct (bound_reading faces f Hinv (Hall f)) as [Hr _].
    destruct (reading_chars_ok _ Hr) as (Hl & Hp & _). done.
  - intros k f Hk. unfold cube_blocks. rewrite list_lookup_fmap, Hk. simpl.
    destruct (bound_reading faces f Hinv (Hall f)) as [Hr Hc].
    destruct (reading_chars_ok _ Hr) as (_ & _ & Hget). by apply Hget.
Qed.

(** Assembly from a full state of the invariant. *)
Lemma assemble_cube_string_spec st :
  scan_inv st -> length (all_faces st) = 6%nat ->
  exists cube lines, assemble_cube_string st = inr (cube, lines) /\
    well_formed_colors cube /\
    forall k f, all_slots !! k = Some f ->
      String.get (9 * k + 4) cube = Some (color_char (slot_color f)).
Proof.
  intros [Hinv _] Hlen. set (faces := all_faces st).
  pose proof (proj2 (faces_inv_full faces Hinv) Hlen) as Hall.
  destruct (assemble_from_ok faces ordered_faces "" (out st ++ [nl +:+ "all faces scanned"]))
    as [lines Hasm].
  { intros n Hn. unfold ordered_faces, required_faces in Hn.
    apply list_elem_of_fmap in Hn as (f & -> & _).
    destruct (dict_get faces (Some (slot_name f))) eqn:E; [by eexists|].
    apply dict_get_None in E. by destruct E. }
  eexists _, lines. split; [exact Hasm|].
  assert (Hchars : String.list_ascii_of_string
      ("" +:+ String.concat "" ((λ n, String.concat "" (face_reading faces n)) <$> ordered_faces))
      = concat (cube_blocks faces)).
  { rewrite string_append_list, string_concat_empty. cbn [String.list_ascii_of_string app]. unfold cube_blocks, ordered_faces, required_faces.
    rewrite <- !list_fmap_compose. f_equal. apply list_fmap_ext. intros i f _.
    unfold compose. apply string_concat_empty. }
  destruct (cube_blocks_ok faces Hinv Hall) as [Hblocks Hcent].
  assert (H9 : Forall (λ b, length b = 9%nat) (cube_blocks faces))
    by (eapply Forall_impl; [exact Hblocks | intros b [? _]; done]).
  split; [split|].
  - rewrite string_length_list, Hchars, length_concat_nine by done.
    unfold cube_blocks. by rewrite length_fmap.
  - rewrite Hchars. apply Forall_concat. eapply Forall_impl; [exact Hblocks|]. by intros b [_ ?].
  - intros k f Hk. rewrite string_get_list, Hchars, lookup_concat_nine by (done || lia).
    by apply Hcent.
Qed.

(** C10.  Assembly after the loop: from a state of the invariant with six
    faces bound, [all_faces[name]] never raises KeyError, and the
    assembled string is a well-formed facelet string (54 letters of the
    scan palette) whose centre sticker of block [k] is the colour of the
    [k]-th slot of TOP, RIGHT, FRONT, BOTTOM, LEFT, BACK. *)
Theorem assemble_cube_string_ok st :
  scan_inv st -> length (all_faces st) = 6%nat ->
  exists cube lines, assemble_cube_string st = inr (cube, lines) /\
    well_formed_colors cube /\
    forall k f, all_slots !! k = Some f ->
      String.get (9 * k + 4) cube = Some (color_char (slot_color f)).
Proof. apply assemble_cube_string_spec. Qed.

(** A face of one colour, filed under the slot of that colour. *)
Definition uniform_entry (c : color) : option string * list string :=
  (Some (slot_name (center_slot c)), color_letter <$> replicate 9 c).

Lemma uniform_entry_ok c : entry_ok (uniform_entry c).
Proof.
  split; [split; [reflexivity|] |].
  - apply Forall_fmap, Forall_forall. intros c' _. by exists c'.
  - exists c. split; reflexivity.
Qed.

(** The solved cube, all six faces bound. *)
Definition solved_state : scan_state :=
  mk_scan (uniform_entry <$> [White; Blue; Red; Yellow; Green; Orange]) 6 [].

Lemma solved_state_inv : scan_inv solved_state.
Proof.
  split; [split|reflexivity].
  - apply (bool_decide_unpack _). vm_compute. reflexivity.
  - apply Forall_fmap, Forall_forall. intros c _. apply uniform_entry_ok.
Qed.

Lemma assemble_cube_string_ok_witness :
  exists cube lines, assemble_cube_string solved_state = inr (cube, lines) /\
    well_formed_colors cube /\
    forall k f, all_slots !! k = Some f ->
      String.get (9 * k + 4) cube = Some (color_char (slot_color f)).
Proof. apply assemble_cube_string_ok; [apply solved_state_inv | reflexivity]. Defined.

Example assemble_solved :
  match assemble_cube_string solved_state with
  | inr (cube, _) => cube = solved_scan
  | inl _ => False
  end.
Proof. vm_compute. reflexivity. Qed.

End Orchestrator.
