(* ===== verification/ScanSpec.v ===== *)
(** * ScanSpec: what the scan loop of [flexible_cube_scanner] promises

    The specification's ScanOrchestrator deduplicates the captured faces
    by slot and tracks completion against the six slots.  [spec_loop] is
    that contract on the list of bound slots alone: each attempt either
    raises (the session's exception), shows no usable face, shows a slot
    already bound (ignored), or shows a new slot (appended); the loop
    stops once six slots are bound.  [scan_loop_refines] relates the
    code's loop ([Orchestrator.scan_loop], src/RCsolver.py lines
    160-199) to it: same outcome, same remaining attempts, and the keys
    of [all_faces] are the names of the bound slots, in order. *)

From S2P Require Import Prelude.
From S2P Require Import FaceIdentifier PaletteTranslator ScanOrchestrator.

Module ScanSpec.

Import Identify Orchestrator.

Section Spec.
Context {Inp : Type} `{FaceScanner Inp}.

(** The slot an attempt shows, if its reading identifies one. *)
Definition shown_slot (i : Inp) : option slot :=
  match scan_face i with
  | inr (_, Some l) => match identify_abs l with IdSlot f => Some f | _ => None end
  | _ => None
  end.

Inductive spec_result :=
| SpecDone (bound : list slot) (rest : list Inp)
| SpecBlocked (bound : list slot)
| SpecCrash (e : py_exc) (bound : list slot).

Fixpoint spec_loop (bound : list slot) (inputs : list Inp) : spec_result :=
  if decide (length bound < 6)%nat then
    match inputs with
    | [] => SpecBlocked bound
    | i :: rest =>
        match scan_face i with
        | inl e => SpecCrash e bound
        | inr _ =>
            match shown_slot i with
            | Some f => if decide (f ∈ bound) then spec_loop bound rest else spec_loop (bound ++ [f]) rest
            | None => spec_loop bound rest
            end
        end
    end
  else SpecDone bound inputs.

(** The dict keys that stand for a list of slots. *)
Definition keys_of (bound : list slot) : list (option string) := (λ f, Some (slot_name f)) <$> bound.

(** Outcomes that correspond. *)
Definition matches (r : loop_result Inp) (s : spec_result) : Prop :=
  match r, s with
  | LoopDone st rest, SpecDone b rest' => rest = rest' /\ dict_keys (all_faces st) = keys_of b
  | LoopBlocked st, SpecBlocked b => dict_keys (all_faces st) = keys_of b
  | LoopCrash e st, SpecCrash e' b => e = e' /\ dict_keys (all_faces st) = keys_of b
  | _, _ => False
  end.

End Spec.

(** ** Lemmas *)

Lemma identify_abs_reading (l : list string) (c : color) :
  reading_ok l -> l !! 4%nat = Some (color_letter c) -> identify_abs l = IdSlot (center_slot c).
Proof.
  intros [Hlen _] Hc. unfold identify_abs. rewrite decide_True by done. rewrite Hc.
  cbn. by rewrite color_of_letter_color.
Qed.

Lemma keys_of_elem (bound : list slot) (f : slot) :
  Some (slot_name f) ∈ keys_of bound <-> f ∈ bound.
Proof.
  unfold keys_of. rewrite list_elem_of_fmap. split.
  - intros (f' & Heq & Hf'). injection Heq as Heq. apply slot_name_inj in Heq. by subst.
  - intros Hf. by exists f.
Qed.

Lemma length_keys_of (bound : list slot) : length (keys_of bound) = length bound.
Proof. apply length_fmap. Qed.

Section Attempt.
Context {Inp : Type} `{FaceScannerOk Inp}.

(** One attempt, exactly: the keys after it. *)
Lemma attempt_keys st i r :
  scan_inv st -> scan_face i = inr r ->
  exists st', scan_attempt st i = inr st' /\ scan_inv st' /\
    dict_keys (all_faces st') =
      match shown_slot i with
      | Some f => if decide (Some (slot_name f) ∈ dict_keys (all_faces st))
                  then dict_keys (all_faces st)
                  else dict_keys (all_faces st) ++ [Some (slot_name f)]
      | None => dict_keys (all_faces st)
      end.
Proof.
  intros Hinv Hi. destruct (attempt_step st i r Hinv Hi) as (st' & Hst & Hinv' & _ & _).
  exists st'. split; [done|]. split; [done|].
  unfold scan_attempt in Hst. unfold shown_slot. rewrite Hi in Hst |- *. cbn [pbind] in Hst.
  destruct r as [o [l|]].
  2: { rewrite (proj1 (finish_fail _ _)) in Hst. by injection Hst as <-. }
  destruct (scan_face_shape i o l Hi) as [->|Hl].
  { rewrite (proj2 (finish_fail _ _)) in Hst. by injection Hst as <-. }
  destruct (reading_ok_center l Hl) as [c Hc]. rewrite (identify_abs_reading l c Hl Hc).
  case_decide as Hin.
  - rewrite (finish_duplicate _ o l c Hl Hc) in Hst by done. by injection Hst as <-.
  - destruct (finish_new (scan_iteration_begin st) o l c) as (st'' & Hst'' & Hf & _);
      [apply (proj1 Hinv) | done | done | done |].
    rewrite Hst'' in Hst. injection Hst as <-. by rewrite Hf, dict_keys_app.
Qed.

End Attempt.

(** ** Properties *)

(** C32.  Refinement of the deduplicating scan: from a state of the
    invariant whose keys name the slots [bound], the code's loop and the
    specification's [spec_loop] end the same way (done with the same
    remaining attempts, waiting, or with the same exception), and the
    keys of [all_faces] are then the names of the slots the
    specification bound: each new slot once, in the order first shown,
    a slot shown again or a reading without a face ignored. *)
Theorem scan_loop_refines {Inp} `{FaceScannerOk Inp} st bound inputs :
  scan_inv st -> dict_keys (all_faces st) = keys_of bound ->
  matches (scan_loop st inputs) (spec_loop bound inputs).
Proof.
  revert st bound. induction inputs as [|i rest IH]; intros st bound Hinv Hk.
  all: assert (Hlen : length (all_faces st) = length bound)
         by (rewrite <- (length_map fst (all_faces st)), <- length_keys_of; exact (f_equal length Hk)).
  - cbn. rewrite Hlen. case_decide; cbn; done.
  - destruct (decide (length bound < 6)%nat) as [Hlt|Hge].
    2: { cbn. rewrite decide_False by lia. cbn. by rewrite decide_False by lia. }
    rewrite scan_loop_unfold by lia. cbn [spec_loop]. rewrite decide_True by done.
    destruct (scan_face i) as [e|r] eqn:Hi.
    + rewrite (scan_attempt_raise st i e Hi). cbn. done.
    + destruct (attempt_keys st i r Hinv Hi) as (st' & -> & Hinv' & Hk').
      destruct (shown_slot i) as [f|].
      * rewrite Hk in Hk'. destruct (decide (f ∈ bound)) as [Hf|Hf].
        -- rewrite decide_True in Hk' by (by apply keys_of_elem). apply IH; [done | by rewrite Hk'].
        -- rewrite decide_False in Hk' by (by rewrite keys_of_elem).
           apply IH; [done|]. rewrite Hk'. unfold keys_of. by rewrite fmap_app.
      * apply IH; [done | by rewrite Hk'].
Qed.

Lemma scan_loop_refines_witness :
  matches (scan_loop init_state six_faces_run) (spec_loop [] six_faces_run).
Proof. apply scan_loop_refines; [apply init_state_inv | reflexivity]. Defined.

End ScanSpec.
