(* ===== verification/Hsv.v ===== *)
(** * Hsv: OpenCV's 8-bit BGR -> HSV conversion

    [detect_color] (src/RCsolver.py, line 25) converts its pixel with
    [cv2.cvtColor(np.uint8([[[b, g, r]]]), cv2.COLOR_BGR2HSV)].  For 8-bit
    images OpenCV computes it in fixed point (imgproc, color_hsv,
    [RGB2HSV_b], the scalar path that its vector path reproduces):

      v = max(b,g,r)   vmin = min(b,g,r)   diff = v - vmin
      s = (diff * sdiv_table[v] + 2^11) >> 12
      h = (vr & (g-b)) + (~vr & ((vg & (b-r+2diff)) + (~vg & (r-g+4diff))))
      h = (h * hdiv_table[diff] + 2^11) >> 12;  h += h < 0 ? 180 : 0

    with [vr], [vg] the masks -1/0 of [v == r], [v == g], and the tables
    [sdiv_table[i] = cvRound((255 << 12) / i)],
    [hdiv_table[i] = cvRound((180 << 12) / (6 i))], both 0 at 0;
    [cvRound] rounds half to even.  The library is not part of the
    repository: this file models it from that documented algorithm.  The
    hue is in [0, 180), saturation and value in [0, 255]. *)

From S2P Require Import Prelude.

Module Hsv.

Local Open Scope Z_scope.

Definition hsv_shift : Z := 12.

(** [cvRound(a / b)] for [b > 0]: round to nearest, ties to even. *)
Definition cv_round_div (a b : Z) : Z :=
  let q := a / b in
  let r := a mod b in
  if 2 * r <? b then q
  else if b <? 2 * r then q + 1
  else if Z.even q then q else q + 1.

Definition sdiv_table (i : Z) : Z :=
  if i =? 0 then 0 else cv_round_div (Z.shiftl 255 hsv_shift) i.

Definition hdiv_table (i : Z) : Z :=
  if i =? 0 then 0 else cv_round_div (Z.shiftl 180 hsv_shift) (6 * i).

(** [saturate_cast<uchar>] *)
Definition saturate_u8 (z : Z) : Z := Z.max 0 (Z.min 255 z).

(** The conversion of one pixel; the result is (h, s, v). *)
Definition bgr2hsv (b g r : Z) : Z * Z * Z :=
  let v := Z.max (Z.max b g) r in
  let vmin := Z.min (Z.min b g) r in
  let diff := saturate_u8 (v - vmin) in
  let vr := if v =? r then -1 else 0 in
  let vg := if v =? g then -1 else 0 in
  let s := Z.shiftr (diff * sdiv_table v + Z.shiftl 1 (hsv_shift - 1)) hsv_shift in
  let h := Z.land vr (g - b) +
           Z.land (Z.lnot vr) (Z.land vg (b - r + 2 * diff) +
                               Z.land (Z.lnot vg) (r - g + 4 * diff)) in
  let h := Z.shiftr (h * hdiv_table diff + Z.shiftl 1 (hsv_shift - 1)) hsv_shift in
  let h := if h <? 0 then h + 180 else h in
  (saturate_u8 h, u8 s, u8 v).

Definition channel (z : Z) : Prop := 0 <= z <= 255.

(** ** Lemmas *)

(** Rounding is within half a unit. *)
Lemma cv_round_div_close a b :
  0 < b -> 2 * Z.abs (b * cv_round_div a b - a) <= b.
Proof.
  intros Hb. unfold cv_round_div.
  pose proof (Z.div_mod a b ltac:(lia)) as Hdm.
  pose proof (Z.mod_pos_bound a b Hb) as Hr.
  set (q := a / b) in *. set (r := a mod b) in *.
  destruct (2 * r <? b) eqn:E1; [apply Z.ltb_lt in E1; lia|].
  apply Z.ltb_ge in E1.
  destruct (b <? 2 * r) eqn:E2; [apply Z.ltb_lt in E2; lia|].
  apply Z.ltb_ge in E2. destruct (Z.even q); lia.
Qed.

Lemma cv_round_div_nonneg a b : 0 < b -> 0 <= a -> 0 <= cv_round_div a b.
Proof.
  intros Hb Ha. unfold cv_round_div.
  pose proof (Z.div_pos a b Ha Hb).
  repeat case_match; lia.
Qed.

Lemma hdiv_table_spec d :
  0 < d -> 0 <= hdiv_table d /\ 6 * d * hdiv_table d <= 737280 + 3 * d /\
           737280 - 3 * d <= 6 * d * hdiv_table d.
Proof.
  intros Hd. unfold hdiv_table. rewrite (proj2 (Z.eqb_neq d 0)) by lia.
  change (Z.shiftl 180 hsv_shift) with 737280.
  pose proof (cv_round_div_close 737280 (6 * d) ltac:(lia)).
  pose proof (cv_round_div_nonneg 737280 (6 * d) ltac:(lia) ltac:(lia)). lia.
Qed.

Lemma sdiv_table_spec v :
  0 < v -> 0 <= sdiv_table v /\ 2 * (v * sdiv_table v) <= 2 * 1044480 + v /\
           2 * 1044480 - v <= 2 * (v * sdiv_table v).
Proof.
  intros Hv. unfold sdiv_table. rewrite (proj2 (Z.eqb_neq v 0)) by lia.
  change (Z.shiftl 255 hsv_shift) with 1044480.
  pose proof (cv_round_div_close 1044480 v Hv).
  pose proof (cv_round_div_nonneg 1044480 v Hv ltac:(lia)). lia.
Qed.

(** The fixed-point step [(n + 2^11) >> 12] is a floor division. *)
Lemma fixed_round n : Z.shiftr (n + Z.shiftl 1 (hsv_shift - 1)) hsv_shift = (n + 2048) / 4096.
Proof. rewrite Z.shiftr_div_pow2 by (unfold hsv_shift; lia). reflexivity. Qed.

Lemma mask_m1 x : Z.land (-1) x = x.
Proof. apply Z.land_m1_l. Qed.

Lemma mask_0 x : Z.land 0 x = 0.
Proof. apply Z.land_0_l. Qed.

#[export] Hint Rewrite fixed_round mask_m1 mask_0 : rcsolver.

Lemma saturate_u8_id z : 0 <= z <= 255 -> saturate_u8 z = z.
Proof. intros H. unfold saturate_u8. lia. Qed.

(** The hue numerator before scaling, by the channel holding the max. *)
Lemma hue_raw_bounds b g r :
  channel b -> channel g -> channel r ->
  let v := Z.max (Z.max b g) r in
  let d := v - Z.min (Z.min b g) r in
  let vr := if v =? r then -1 else 0 in
  let vg := if v =? g then -1 else 0 in
  let h0 := Z.land vr (g - b) +
            Z.land (Z.lnot vr) (Z.land vg (b - r + 2 * d) + Z.land (Z.lnot vg) (r - g + 4 * d)) in
  - d <= h0 <= 5 * d.
Proof.
  unfold channel. intros Hb Hg Hr. cbn zeta.
  destruct (Z.max (Z.max b g) r =? r) eqn:Er; [|destruct (Z.max (Z.max b g) r =? g) eqn:Eg];
    cbn [Z.lnot]; autorewrite with rcsolver.
  - apply Z.eqb_eq in Er. lia.
  - apply Z.eqb_eq in Eg. lia.
  - apply Z.eqb_neq in Er, Eg. lia.
Qed.

(** Scaling a numerator in [-d, 5 d] by the hue table gives [-30, 150]. *)
Lemma hue_scaled_bounds d h0 :
  0 <= d <= 255 -> - d <= h0 <= 5 * d ->
  -30 <= (h0 * hdiv_table d + 2048) / 4096 <= 150 /\
  (0 <= h0 -> 0 <= (h0 * hdiv_table d + 2048) / 4096).
Proof.
  intros Hd Hh. destruct (Z.eq_dec d 0) as [->|Hd0].
  { unfold hdiv_table. simpl. rewrite Z.mul_0_r. split; [split|]; compute; congruence. }
  destruct (hdiv_table_spec d ltac:(lia)) as (HT & Hup & Hlo).
  set (T := hdiv_table d) in *.
  assert (h0 * T <= 5 * d * T) by nia.
  assert (- d * T <= h0 * T) by nia.
  split; [split|].
  - apply Z.div_le_lower_bound; nia.
  - apply Z.lt_succ_r, Z.div_lt_upper_bound; nia.
  - intros Hpos. apply Z.div_pos; [nia | lia].
Qed.

Lemma sat_scaled_bounds v d :
  0 <= d <= v -> v <= 255 ->
  0 <= (d * sdiv_table v + 2048) / 4096 <= 255 /\
  ((d * sdiv_table v + 2048) / 4096 = 0 <-> d = 0).
Proof.
  intros Hd Hv. destruct (Z.eq_dec v 0) as [->|Hv0].
  { assert (d = 0) as -> by lia. unfold sdiv_table. simpl. split; [compute; split; congruence | done]. }
  destruct (sdiv_table_spec v ltac:(lia)) as (HS & Hup & Hlo).
  set (S := sdiv_table v) in *.
  assert (HS' : 4096 <= S) by nia.
  assert (d * S <= v * S) by nia.
  split; [split|split].
  - apply Z.div_pos; nia.
  - apply Z.lt_succ_r, Z.div_lt_upper_bound; nia.
  - intros H0. destruct (Z.eq_dec d 0) as [|Hd0]; [done|].
    assert (4096 <= d * S + 2048) by nia.
    pose proof (Z.div_le_mono 4096 (d * S + 2048) 4096 ltac:(lia) ltac:(lia)).
    rewrite Z.div_same in * by lia. lia.
  - intros ->. reflexivity.
Qed.

(** A grey pixel has hue and saturation 0. *)
Lemma bgr2hsv_grey x : channel x -> bgr2hsv x x x = (0, 0, x).
Proof.
  unfold channel. intros Hx. unfold bgr2hsv. cbn zeta.
  rewrite !Z.max_id, !Z.min_id, Z.sub_diag, Z.eqb_refl. cbn [Z.lnot].
  autorewrite with rcsolver. rewrite (u8_small x) by lia. reflexivity.
Qed.

(** ** Properties *)

(** Ranges of the conversion: on three 8-bit channels OpenCV's
    fixed-point conversion gives a hue in [0, 180), a saturation in
    [0, 255] that is 0 exactly for grey pixels, and the value is the
    largest channel: no result is clamped or wrapped. *)
Theorem bgr2hsv_bounds b g r :
  channel b -> channel g -> channel r ->
  let '(h, s, v) := bgr2hsv b g r in
  0 <= h < 180 /\ 0 <= s <= 255 /\ v = Z.max (Z.max b g) r /\
  (s = 0 <-> Z.min (Z.min b g) r = v).
Proof.
  intros Hb Hg Hr. pose proof (hue_raw_bounds b g r Hb Hg Hr) as Hh0.
  unfold channel in *. unfold bgr2hsv. cbn zeta.
  assert (Hvv : 0 <= Z.min (Z.min b g) r /\ Z.min (Z.min b g) r <= Z.max (Z.max b g) r /\ Z.max (Z.max b g) r <= 255) by lia.
  set (v := Z.max (Z.max b g) r) in *. set (vmin := Z.min (Z.min b g) r) in *.
  rewrite (saturate_u8_id (v - vmin)) by lia. autorewrite with rcsolver.
  set (h0 := Z.land _ _ + Z.land _ _) in *.
  destruct (hue_scaled_bounds (v - vmin) h0 ltac:(lia) Hh0) as [[Hlo Hhi] Hpos].
  destruct (sat_scaled_bounds v (v - vmin) ltac:(lia) ltac:(lia)) as [Hs Hs0].
  rewrite (u8_small v), (u8_small ((_ * sdiv_table v + 2048) / 4096)) by lia.
  split; [|split; [lia | split; [done | rewrite Hs0; lia]]].
  destruct ((h0 * hdiv_table (v - vmin) + 2048) / 4096 <? 0) eqn:E.
  - apply Z.ltb_lt in E. rewrite saturate_u8_id; lia.
  - apply Z.ltb_ge in E. rewrite saturate_u8_id; [|lia].
    destruct (Z_le_gt_dec 0 h0) as [Hp|Hn]; [specialize (Hpos Hp)|]; lia.
Qed.

Example bgr2hsv_orange : bgr2hsv 0 165 255 = (19, 255, 255).
Proof. reflexivity. Qed.

Example bgr2hsv_blue : bgr2hsv 255 0 0 = (120, 255, 255).
Proof. reflexivity. Qed.

Lemma bgr2hsv_bounds_witness :
  let '(h, s, v) := bgr2hsv 170 230 230 in
  0 <= h < 180 /\ 0 <= s <= 255 /\ v = Z.max (Z.max 170 230) 230 /\
  (s = 0 <-> Z.min (Z.min 170 230) 230 = v).
Proof. apply bgr2hsv_bounds; unfold channel; lia. Defined.

End Hsv.
