(* ===== verification/ColorClassifier.v ===== *)
(** * ColorClassifier: [detect_color] (src/RCsolver.py, lines 23-63)

    A sampled pixel [(b, g, r)] is converted to HSV by OpenCV ([Hsv]) and
    classified by a cascade of six HSV rules (white, yellow, orange, red,
    green, blue) in the order of the code; a pixel that no rule takes
    falls back on comparisons of the raw channels.  The channels come from
    [frame[center_y, center_x]], so they are [numpy.uint8] scalars: under
    NumPy 2's scalar promotion (NEP 50: [uint8 + int] stays [uint8]) the
    sums [g + 30], [b + 30] and [r + 30] of the fallback wrap modulo 256,
    written with [u8].  [detect_color_unbounded] is the same cascade with
    mathematical sums: what the fallback's comments describe, and what
    NumPy 1 computed (it promoted the sum to int64). *)

From S2P Require Import Prelude.
From S2P Require Import Hsv.

Module Classify.

Import Hsv.

Local Open Scope Z_scope.

(** The fallback of lines 53-63, with the uint8 sums of the code. *)
Definition fallback (b g r v : Z) : string :=
  if (u8 (g + 30) <? r) && (u8 (b + 30) <? r) then "R"
  else if (u8 (r + 30) <? g) && (u8 (b + 30) <? g) then "G"
  else if (u8 (r + 30) <? b) && (u8 (g + 30) <? b) then "B"
  else if 150 <? v then "W"
  else "Y".

(** The HSV cascade of lines 28-50, then [else_] when no rule fires. *)
Definition hsv_rules (h s v : Z) (else_ : string) : string :=
  if (160 <? v) && (s <? 60) then "W"
  else if (22 <=? h) && (h <=? 38) && (80 <? s) && (100 <? v) then "Y"
  else if (5 <=? h) && (h <=? 30) && (80 <? s) then "O"
  else if ((h <=? 8) || (170 <=? h)) && (90 <? s) then "R"
  else if (45 <=? h) && (h <=? 75) && (70 <? s) then "G"
  else if (100 <=? h) && (h <=? 125) && (70 <? s) then "B"
  else else_.

Definition detect_color (b g r : Z) : string :=
  let '(h, s, v) := bgr2hsv b g r in
  hsv_rules h s v (fallback b g r v).

(** The fallback with unbounded integer sums. *)
Definition fallback_unbounded (b g r v : Z) : string :=
  if (g + 30 <? r) && (b + 30 <? r) then "R"
  else if (r + 30 <? g) && (b + 30 <? g) then "G"
  else if (r + 30 <? b) && (g + 30 <? b) then "B"
  else if 150 <? v then "W"
  else "Y".

Definition detect_color_unbounded (b g r : Z) : string :=
  let '(h, s, v) := bgr2hsv b g r in
  hsv_rules h s v (fallback_unbounded b g r v).

(** ** Lemmas *)

Ltac letter_exists :=
  first [ exists White; reflexivity | exists Yellow; reflexivity
        | exists Orange; reflexivity | exists Red; reflexivity
        | exists Green; reflexivity | exists Blue; reflexivity ].

Lemma fallback_letter b g r v : exists c, fallback b g r v = color_letter c.
Proof. unfold fallback. repeat case_match; letter_exists. Qed.

Lemma hsv_rules_letter h s v e :
  (exists c, e = color_letter c) -> exists c, hsv_rules h s v e = color_letter c.
Proof. intros He. unfold hsv_rules. repeat case_match; first [letter_exists | exact He]. Qed.

Lemma fallback_small b g r v :
  0 <= b <= 225 -> 0 <= g <= 225 -> 0 <= r <= 225 ->
  fallback b g r v = fallback_unbounded b g r v.
Proof.
  intros Hb Hg Hr. unfold fallback, fallback_unbounded.
  rewrite ?u8_small by lia. reflexivity.
Qed.

(** No HSV rule fires on a pixel of saturation 0 and value at most 160. *)
Lemma hsv_rules_grey v e : v <= 160 -> hsv_rules 0 0 v e = e.
Proof.
  intros Hv. unfold hsv_rules.
  rewrite (proj2 (Z.ltb_ge 160 v)) by lia. reflexivity.
Qed.

(** Decide the comparisons of the cascade from hypotheses on [h, s, v]. *)
Ltac zcompare :=
  repeat match goal with
  | |- context [?a <? ?b] => destruct (Z.ltb_spec a b); cbn [andb orb]; try (exfalso; lia)
  | |- context [?a <=? ?b] => destruct (Z.leb_spec a b); cbn [andb orb]; try (exfalso; lia)
  end; try reflexivity.

(** The wrapped sums: [g + 30] and [b + 30] are below [r]. *)
Lemma fallback_wraps b g r v :
  226 <= g <= 255 -> 226 <= b <= 255 -> g - 226 < r -> b - 226 < r -> fallback b g r v = "R".
Proof.
  intros Hg Hb Hrg Hrb. unfold fallback.
  rewrite (u8_wrap (g + 30)), (u8_wrap (b + 30)) by lia.
  rewrite (proj2 (Z.ltb_lt _ r)), (proj2 (Z.ltb_lt _ r)) by lia. reflexivity.
Qed.

(** Without the wrap no channel exceeds another by 30 and the pixel is bright. *)
Lemma fallback_unbounded_white b g r v :
  226 <= g <= 255 -> 226 <= b <= 255 -> 0 <= r <= 255 -> 150 < v -> fallback_unbounded b g r v = "W".
Proof. intros Hg Hb Hr Hv. unfold fallback_unbounded. zcompare. Qed.

Lemma detect_color_is_letter b g r : exists c, detect_color b g r = color_letter c.
Proof.
  unfold detect_color. destruct (bgr2hsv b g r) as [[h s] v].
  apply hsv_rules_letter, fallback_letter.
Qed.

(** ** Properties *)

(** C11.  Every pixel is classified as one of the six colour letters of
    the scan palette: the cascade and its fallback return nothing else. *)
Theorem detect_color_letter b g r : exists c, detect_color b g r = color_letter c.
Proof. apply detect_color_is_letter. Qed.

(** C12.  On channels of at most 225 the uint8 sums of the fallback do
    not wrap, and [detect_color] is the classification with unbounded
    integer comparisons. *)
Theorem detect_color_small_channels b g r :
  0 <= b <= 225 -> 0 <= g <= 225 -> 0 <= r <= 225 ->
  detect_color b g r = detect_color_unbounded b g r.
Proof.
  intros Hb Hg Hr. unfold detect_color, detect_color_unbounded.
  destruct (bgr2hsv b g r) as [[h s] v]. by rewrite fallback_small.
Qed.

Lemma detect_color_small_channels_witness :
  detect_color 10 20 30 = detect_color_unbounded 10 20 30.
Proof. apply detect_color_small_channels; lia. Defined.

(** C13.  Overflow of the fallback: on every pixel whose green and
    blue channels are at least 226 and whose red channel exceeds both
    minus 226, the uint8 sums [g + 30] and [b + 30] wrap to [g - 226] and
    [b - 226], so the fallback answers red, where the unbounded sums
    answer white.  Whatever the HSV cascade decides before the fallback,
    [detect_color] is the cascade ending in "R" and
    [detect_color_unbounded] the cascade ending in "W"; the cyan pixel
    [(230, 230, 10)] (HSV (90, 244, 230)) passes no rule and is labelled
    red. *)
Theorem detect_color_overflow b g r :
  channel b -> channel g -> channel r ->
  226 <= g -> 226 <= b -> g - 226 < r -> b - 226 < r ->
  let '(h, s, v) := bgr2hsv b g r in
  detect_color b g r = hsv_rules h s v "R" /\ detect_color_unbounded b g r = hsv_rules h s v "W".
Proof.
  intros Hb Hg Hr Hg' Hb' Hrg Hrb. pose proof (bgr2hsv_bounds b g r Hb Hg Hr) as Hbd.
  unfold detect_color, detect_color_unbounded. destruct (bgr2hsv b g r) as [[h s] v].
  destruct Hbd as (_ & _ & Hv & _). unfold channel in *.
  rewrite (fallback_wraps b g r v), (fallback_unbounded_white b g r v) by lia. done.
Qed.

Lemma detect_color_overflow_witness :
  let '(h, s, v) := bgr2hsv 230 230 10 in
  detect_color 230 230 10 = hsv_rules h s v "R" /\ detect_color_unbounded 230 230 10 = hsv_rules h s v "W".
Proof. apply detect_color_overflow; unfold channel; lia. Defined.

(** The cyan pixel passes no rule of the cascade. *)
Example detect_color_cyan : detect_color 230 230 10 = "R" /\ detect_color_unbounded 230 230 10 = "W".
Proof. split; vm_compute; reflexivity. Qed.

(** C14.  Grey pixels: a pixel with three equal channels is white when
    its level is above 150, and yellow (the code's default "when in
    doubt") otherwise, black included. *)
Theorem detect_color_grey x :
  channel x -> detect_color x x x = if 150 <? x then "W" else "Y".
Proof.
  intros Hx. unfold detect_color. rewrite bgr2hsv_grey by done.
  unfold channel in Hx. destruct (Z_le_gt_dec x 160) as [Hl|Hl].
  - rewrite hsv_rules_grey by done. unfold fallback.
    rewrite !u8_small by lia. rewrite !(proj2 (Z.ltb_ge _ x)) by lia. reflexivity.
  - unfold hsv_rules. rewrite (proj2 (Z.ltb_lt 160 x)), (proj2 (Z.ltb_lt 150 x)) by lia.
    reflexivity.
Qed.

Lemma detect_color_grey_witness : detect_color 0 0 0 = "Y".
Proof. apply (detect_color_grey 0). unfold channel; lia. Defined.

(** C15.  The red rule's hues 5 to 8 are unreachable: a pixel whose hue
    is in [5, 8] and whose saturation exceeds 80 is always classified
    orange, since the orange rule comes first. *)
Theorem detect_color_orange_shadows_red b g r :
  let '(h, s, v) := bgr2hsv b g r in
  5 <= h <= 8 -> 80 < s -> detect_color b g r = "O".
Proof.
  unfold detect_color. destruct (bgr2hsv b g r) as [[h s] v].
  intros Hh Hs. unfold hsv_rules.
  rewrite (proj2 (Z.ltb_ge s 60)), andb_false_r by lia.
  rewrite (proj2 (Z.leb_gt 22 h)) by lia. cbn [andb].
  rewrite (proj2 (Z.leb_le 5 h)), (proj2 (Z.leb_le h 30)), (proj2 (Z.ltb_lt 80 s)) by lia.
  reflexivity.
Qed.

Lemma detect_color_orange_shadows_red_witness :
  bgr2hsv 0 50 255 = (6, 255, 255) /\ detect_color 0 50 255 = "O".
Proof.
  assert (E : bgr2hsv 0 50 255 = (6, 255, 255)) by (vm_compute; reflexivity).
  pose proof (detect_color_orange_shadows_red 0 50 255) as H.
  rewrite E in H. cbn iota in H. split; [exact E | apply H; lia].
Defined.

(** C31.  The reference ranges: a pixel whose HSV value lies in the
    range the cascade reserves for a colour is labelled with that colour:
    bright and unsaturated is white, hue 22-38 yellow, hue 5-21 orange,
    hue at most 4 or at least 170 red, hue 45-75 green, hue 100-125
    blue (with the saturation and value bounds of each rule). *)
Theorem detect_color_regions b g r :
  let '(h, s, v) := bgr2hsv b g r in
  (160 < v -> s < 60 -> detect_color b g r = "W") /\
  (22 <= h <= 38 -> 80 < s -> 100 < v -> detect_color b g r = "Y") /\
  (5 <= h <= 21 -> 80 < s -> detect_color b g r = "O") /\
  ((h <= 4 \/ 170 <= h) -> 90 < s -> detect_color b g r = "R") /\
  (45 <= h <= 75 -> 70 < s -> detect_color b g r = "G") /\
  (100 <= h <= 125 -> 70 < s -> detect_color b g r = "B").
Proof.
  unfold detect_color. destruct (bgr2hsv b g r) as [[h s] v].
  repeat split; intros; unfold hsv_rules; zcompare.
Qed.

Lemma detect_color_regions_witness :
  bgr2hsv 0 255 255 = (30, 255, 255) /\ detect_color 0 255 255 = "Y".
Proof.
  assert (E : bgr2hsv 0 255 255 = (30, 255, 255)) by (vm_compute; reflexivity).
  pose proof (detect_color_regions 0 255 255) as H.
  rewrite E in H. cbn iota in H. split; [exact E | apply (proj1 (proj2 H)); lia].
Defined.

End Classify.
