(* ===== verification/FaceSampler.v ===== *)
(** * FaceSampler: the grid of [scan_single_face] (src/RCsolver.py, lines 97-122)

    Each frame is an OpenCV image, a numpy array of shape
    [(height, width, 3)]: here a record of its two dimensions and its
    pixels as a function of row and column.  [frame[y, x]] follows
    numpy's indexing: a negative index counts from the end, anything
    outside [-n, n) raises IndexError ([frame_get]).

    The grid is 300 units wide, horizontally centred and 30 units above
    the bottom edge; for each of its nine cells, in row-major order, the
    code draws the cell's rectangle on the frame, reads the pixel at the
    cell's centre from the frame it has drawn on, classifies it with
    [detect_color] and writes the label on the frame.  The drawing calls
    of OpenCV are reached through the class [Canvas]; [CanvasOk] states
    what the development needs of them: they keep the frame's
    dimensions, a rectangle changes no pixel away from its outline and a
    label no pixel away from its origin.  [paint_canvas] is an instance
    that paints the outline and the label's box. *)

From S2P Require Import Prelude.
From S2P Require Import Hsv ColorClassifier FaceIdentifier PaletteTranslator ScanOrchestrator.
From Stdlib Require Import Sorted.

Module Sampler.

Import Classify Orchestrator.

Local Open Scope Z_scope.

(** ** Frames and drawing *)

Definition pixel : Type := Z * Z * Z.

Record frame := mk_frame {
  height : Z;
  width : Z;
  pixel_at : Z -> Z -> pixel
}.

(** [frame[y, x]] *)
Definition frame_get (fr : frame) (y x : Z) : pyres pixel :=
  match py_index (height fr) y with
  | Some y' =>
      match py_index (width fr) x with
      | Some x' => pret (pixel_at fr y' x')
      | None => praise IndexError
      end
  | None => praise IndexError
  end.

(** [cv2.rectangle(frame, p1, p2, color, thickness)] and
    [cv2.putText(frame, text, org, font, scale, color, thickness)]; the
    font is always [FONT_HERSHEY_SIMPLEX] and the scale is given in
    thousandths. *)
Class Canvas := {
  rectangle : frame -> Z * Z -> Z * Z -> pixel -> Z -> frame;
  put_text : frame -> string -> Z * Z -> Z -> pixel -> Z -> frame
}.

(** A bound on the extent of a label's glyphs around its origin, per
    character horizontally, for scales up to 1. *)
Definition text_reach : Z := 40.

Definition away_from_rect (x1 y1 x2 y2 t x y : Z) : Prop :=
  x < x1 - t \/ x2 + t < x \/ y < y1 - t \/ y2 + t < y \/
  (x1 + t < x < x2 - t /\ y1 + t < y < y2 - t).

Definition away_from_text (s : string) (ox oy x y : Z) : Prop :=
  x < ox - text_reach \/ ox + text_reach * Z.of_nat (String.length s) < x \/
  y < oy - text_reach \/ oy + text_reach < y.

Class CanvasOk `{Canvas} := {
  rectangle_height : forall fr p1 p2 col t, height (rectangle fr p1 p2 col t) = height fr;
  rectangle_width : forall fr p1 p2 col t, width (rectangle fr p1 p2 col t) = width fr;
  rectangle_footprint : forall fr x1 y1 x2 y2 col t x y,
    away_from_rect x1 y1 x2 y2 t x y ->
    pixel_at (rectangle fr (x1, y1) (x2, y2) col t) y x = pixel_at fr y x;
  put_text_height : forall fr s o sc col t, height (put_text fr s o sc col t) = height fr;
  put_text_width : forall fr s o sc col t, width (put_text fr s o sc col t) = width fr;
  put_text_footprint : forall fr s ox oy sc col t x y,
    0 <= sc <= 1000 -> away_from_text s ox oy x y ->
    pixel_at (put_text fr s (ox, oy) sc col t) y x = pixel_at fr y x
}.

(** ** The grid (lines 99-122) *)

Definition grid_size : Z := 300.

(** [for row in range(3): for col in range(3):] *)
Definition grid_cells : list (Z * Z) :=
  concat ((λ row, (λ col, (row, col)) <$> [0; 1; 2]) <$> [0; 1; 2]).

Section Sample.
Context `{Canvas}.

(** The loop body for the remaining cells; [colors] is the list built
    so far.  The result is the nine labels and the annotated frame. *)
Fixpoint sample_cells (start_x start_y : Z) (fr : frame) (cells : list (Z * Z))
    (colors : list string) : pyres (list string * frame) :=
  match cells with
  | [] => pret (colors, fr)
  | (row, col) :: rest =>
      let x1 := start_x + col * (grid_size / 3) in
      let y1 := start_y + row * (grid_size / 3) in
      let x2 := x1 + grid_size / 3 in
      let y2 := y1 + grid_size / 3 in
      let fr := rectangle fr (x1, y1) (x2, y2) (0, 0, 0) 2 in
      let center_x := (x1 + x2) / 2 in
      let center_y := (y1 + y2) / 2 in
      bgr_color <-! frame_get fr center_y center_x ;;
      let '(b, g, r) := bgr_color in
      let color := detect_color b g r in
      let fr := put_text fr color (center_x - 10, center_y + 5) 500 (0, 0, 0) 2 in
      sample_cells start_x start_y fr rest (colors ++ [color])
  end.

Definition sample_grid (fr : frame) : pyres (list string * frame) :=
  let start_x := width fr / 2 - grid_size / 2 in
  let start_y := height fr - grid_size - 30 in
  sample_cells start_x start_y fr grid_cells [].

End Sample.

(** The pixel the code reads for cell [(row, col)] of a frame of the
    given size, before numpy's wrap-around. *)
Definition cell_center (h w row col : Z) : Z * Z :=
  (h - 280 + 100 * row, w / 2 - 100 + 100 * col).

(** ** A canvas that paints *)

Definition paint_rect (fr : frame) (p1 p2 : Z * Z) (col : pixel) (t : Z) : frame :=
  let '(x1, y1) := p1 in let '(x2, y2) := p2 in
  mk_frame (height fr) (width fr) (λ y x,
    if bool_decide (away_from_rect x1 y1 x2 y2 t x y) then pixel_at fr y x else col).

Definition paint_text (fr : frame) (s : string) (o : Z * Z) (sc : Z) (col : pixel) (t : Z) : frame :=
  let '(ox, oy) := o in
  mk_frame (height fr) (width fr) (λ y x,
    if bool_decide (away_from_text s ox oy x y) then pixel_at fr y x else col).

#[export] Instance paint_canvas : Canvas := {| rectangle := paint_rect; put_text := paint_text |}.

#[export] Instance paint_canvas_ok : @CanvasOk paint_canvas.
Proof.
  split.
  - by intros ? [] [].
  - by intros ? [] [].
  - intros. cbn. by rewrite bool_decide_true.
  - by intros ? ? [].
  - by intros ? ? [].
  - intros. cbn. by rewrite bool_decide_true.
Qed.

(** ** Lemmas *)

Lemma grid_cells_eq :
  grid_cells = [(0, 0); (0, 1); (0, 2); (1, 0); (1, 1); (1, 2); (2, 0); (2, 1); (2, 2)].
Proof. reflexivity. Qed.

Lemma grid_cells_NoDup : NoDup grid_cells.
Proof. rewrite grid_cells_eq. apply (bool_decide_unpack _). reflexivity. Qed.

Lemma grid_cells_sorted : StronglySorted (λ a b, a.1 <= b.1) grid_cells.
Proof. rewrite grid_cells_eq. repeat (constructor || (cbn; lia)). Qed.

Lemma grid_cells_range rc : rc ∈ grid_cells -> 0 <= rc.1 <= 2 /\ 0 <= rc.2 <= 2.
Proof.
  rewrite grid_cells_eq, list_elem_of_In. cbn [In].
  intros H; repeat destruct H as [<-|H]; cbn; lia || done.
Qed.

Lemma center_half x : (x + (x + 100)) / 2 = x + 50.
Proof. replace (x + (x + 100)) with ((x + 50) * 2) by lia. apply Z.div_mul. lia. Qed.

Lemma py_index_valid n i : - n <= i < n -> is_Some (py_index n i).
Proof.
  intros H. destruct (Z_le_gt_dec 0 i).
  - rewrite py_index_in_range by lia. eauto.
  - rewrite py_index_neg by lia. eauto.
Qed.

(** The label of a cell is one character long. *)
Lemma detect_color_length b g r : String.length (detect_color b g r) = 1%nat.
Proof. destruct (detect_color_is_letter b g r) as [c ->]. by destruct c. Qed.

(** A cell's rectangle does not reach the centre of any cell, its own
    included. *)
Lemma rect_away_center sx sy row col row' col' :
  away_from_rect (sx + col * 100) (sy + row * 100) (sx + col * 100 + 100) (sy + row * 100 + 100) 2
    (sx + col' * 100 + 50) (sy + row' * 100 + 50).
Proof.
  unfold away_from_rect.
  destruct (Z.lt_total col' col) as [|[->|]]; [lia| |lia].
  destruct (Z.lt_total row' row) as [|[->|]]; lia.
Qed.

(** A one-character label at a cell's centre does not reach the centre
    of any other cell. *)
Lemma text_away_center sx sy row col row' col' (s : string) :
  String.length s = 1%nat -> (row, col) <> (row', col') ->
  away_from_text s (sx + col * 100 + 50 - 10) (sy + row * 100 + 50 + 5)
    (sx + col' * 100 + 50) (sy + row' * 100 + 50).
Proof.
  intros Hs Hne. unfold away_from_text, text_reach. rewrite Hs.
  destruct (Z.lt_total col' col) as [|[->|]]; [lia| |lia].
  destruct (Z.lt_total row' row) as [|[->|]]; [lia|congruence|lia].
Qed.

(** The same for the position numpy reads: a centre above the frame is
    read [height] rows lower, above everything drawn so far when the
    cells are drawn row by row. *)
Lemma rect_away_read sx sy h row col row' col' :
  53 <= h -> row <= row' -> - h <= sy + row' * 100 + 50 < h ->
  away_from_rect (sx + col * 100) (sy + row * 100) (sx + col * 100 + 100) (sy + row * 100 + 100) 2
    (sx + col' * 100 + 50) ((sy + row' * 100 + 50) mod h).
Proof.
  intros Hh Hr Hy. destruct (Z_le_gt_dec 0 (sy + row' * 100 + 50)).
  - rewrite Z.mod_small by lia. apply rect_away_center.
  - rewrite mod_neg_shift by lia. unfold away_from_rect. lia.
Qed.

Lemma text_away_read sx sy h row col row' col' (s : string) :
  53 <= h -> row <= row' -> - h <= sy + row' * 100 + 50 < h ->
  String.length s = 1%nat -> (row, col) <> (row', col') ->
  away_from_text s (sx + col * 100 + 50 - 10) (sy + row * 100 + 50 + 5)
    (sx + col' * 100 + 50) ((sy + row' * 100 + 50) mod h).
Proof.
  intros Hh Hr Hy Hs Hne. destruct (Z_le_gt_dec 0 (sy + row' * 100 + 50)).
  - rewrite Z.mod_small by lia. by apply text_away_center.
  - rewrite mod_neg_shift by lia. unfold away_from_text, text_reach. lia.
Qed.

Section SampleLemmas.
Context `{CanvasOk}.

(** The loop body with the coordinates computed. *)
Lemma sample_cells_cons sx sy fr row col rest colors :
  sample_cells sx sy fr ((row, col) :: rest) colors =
  let fr1 := rectangle fr (sx + col * 100, sy + row * 100)
               (sx + col * 100 + 100, sy + row * 100 + 100) (0, 0, 0) 2 in
  bgr_color <-! frame_get fr1 (sy + row * 100 + 50) (sx + col * 100 + 50) ;;
  let '(b, g, r) := bgr_color in
  let color := detect_color b g r in
  sample_cells sx sy
    (put_text fr1 color (sx + col * 100 + 50 - 10, sy + row * 100 + 50 + 5) 500 (0, 0, 0) 2)
    rest (colors ++ [color]).
Proof.
  cbn [sample_cells]. change (grid_size / 3) with 100. by rewrite !center_half.
Qed.

Lemma frame_get_rect fr p1 p2 col t y x :
  frame_get (rectangle fr p1 p2 col t) y x =
  match py_index (height fr) y, py_index (width fr) x with
  | Some y', Some x' => pret (pixel_at (rectangle fr p1 p2 col t) y' x')
  | _, _ => praise IndexError
  end.
Proof.
  unfold frame_get. rewrite rectangle_height, rectangle_width.
  by destruct (py_index (height fr) y), (py_index (width fr) x).
Qed.

Definition cell_valid (h w sx sy : Z) (rc : Z * Z) : Prop :=
  is_Some (py_index h (sy + rc.1 * 100 + 50)) /\ is_Some (py_index w (sx + rc.2 * 100 + 50)).

(** Every cell in range: the loop returns one colour letter per cell
    and keeps the frame's size. *)
Lemma sample_cells_ok sx sy fr cells colors :
  Forall (cell_valid (height fr) (width fr) sx sy) cells ->
  exists cs fr', sample_cells sx sy fr cells colors = inr (colors ++ cs, fr') /\
    length cs = length cells /\ Forall (λ x, exists c, x = color_letter c) cs /\
    height fr' = height fr /\ width fr' = width fr.
Proof.
  revert fr colors. induction cells as [|[row col] rest IH]; intros fr colors Hv.
  - exists [], fr. by rewrite app_nil_r.
  - apply Forall_cons in Hv as [[[y' Hy] [x' Hx]] Hv]. cbn [fst snd] in Hy, Hx.
    rewrite sample_cells_cons. cbn zeta. rewrite frame_get_rect, Hy, Hx. cbn [pbind pret].
    destruct (pixel_at _ y' x') as [[b g] r].
    set (fr2 := put_text _ _ _ _ _ _).
    assert (height fr2 = height fr /\ width fr2 = width fr) as [Eh Ew]
      by (subst fr2; by rewrite put_text_height, put_text_width, rectangle_height, rectangle_width).
    rewrite <- Eh, <- Ew in Hv.
    destruct (IH fr2 (colors ++ [detect_color b g r]) Hv) as (cs & fr' & -> & Hl & Hf & Hh & Hw).
    exists (detect_color b g r :: cs), fr'. rewrite <- app_assoc. cbn.
    repeat split; [lia | constructor; [apply detect_color_is_letter | done] | congruence | congruence].
Qed.

(** A cell out of range: the loop raises IndexError. *)
Lemma sample_cells_error sx sy fr cells colors :
  Exists (λ rc, ¬ cell_valid (height fr) (width fr) sx sy rc) cells ->
  sample_cells sx sy fr cells colors = inl IndexError.
Proof.
  revert fr colors. induction cells as [|[row col] rest IH]; intros fr colors Hx;
    [by apply Exists_nil in Hx|].
  rewrite sample_cells_cons. cbn zeta. rewrite frame_get_rect.
  destruct (py_index (height fr) (sy + row * 100 + 50)) as [y'|] eqn:Ey,
    (py_index (width fr) (sx + col * 100 + 50)) as [x'|] eqn:Ex; cbn [pbind praise]; try done.
  apply Exists_cons in Hx as [Hx|Hx];
    [exfalso; apply Hx; split; cbn [fst snd]; [rewrite Ey|rewrite Ex]; eauto|].
  destruct (pixel_at _ y' x') as [[b g] r]. apply IH.
  by rewrite put_text_height, put_text_width, rectangle_height, rectangle_width.
Qed.

(** The label the code gives a cell when it reads the cell's centre
    from the frame [fr0] it was given. *)
Definition label_at (fr0 : frame) (sx sy : Z) (rc : Z * Z) : string :=
  let '(b, g, r) := pixel_at fr0 ((sy + rc.1 * 100 + 50) mod height fr0) (sx + rc.2 * 100 + 50) in
  detect_color b g r.

(** Drawing does not disturb sampling: when the cells come row by row,
    every centre is a valid numpy index and the pixel read there still
    holds the pixel of [fr0], each cell is labelled from [fr0]. *)
Lemma sample_cells_centers sx sy fr0 fr cells colors :
  height fr = height fr0 -> width fr = width fr0 -> 53 <= height fr0 -> NoDup cells ->
  StronglySorted (λ a b, a.1 <= b.1) cells ->
  (forall rc, rc ∈ cells ->
     - height fr0 <= sy + rc.1 * 100 + 50 < height fr0 /\ 0 <= sx + rc.2 * 100 + 50 < width fr0 /\
     pixel_at fr ((sy + rc.1 * 100 + 50) mod height fr0) (sx + rc.2 * 100 + 50) =
     pixel_at fr0 ((sy + rc.1 * 100 + 50) mod height fr0) (sx + rc.2 * 100 + 50)) ->
  exists fr', sample_cells sx sy fr cells colors = inr (colors ++ (label_at fr0 sx sy <$> cells), fr').
Proof.
  revert fr colors. induction cells as [|[row col] rest IH]; intros fr colors Eh Ew H53 Hnd Hso Hc.
  - exists fr. by rewrite app_nil_r.
  - apply NoDup_cons in Hnd as [Hnin Hnd]. apply StronglySorted_inv in Hso as [Hso Hle].
    destruct (Hc (row, col) (list_elem_of_here _ _)) as (Hy & Hx & Hp). cbn [fst snd] in Hy, Hx, Hp.
    rewrite sample_cells_cons. cbn zeta. rewrite frame_get_rect, Eh, Ew.
    rewrite py_index_mod, py_index_in_range by lia. cbn [pbind pret].
    rewrite rectangle_footprint by (apply rect_away_read; lia). rewrite Hp.
    change (label_at fr0 sx sy <$> (row, col) :: rest)
      with (label_at fr0 sx sy (row, col) :: (label_at fr0 sx sy <$> rest)).
    unfold label_at at 1. cbn [fst snd].
    destruct (pixel_at fr0 _ _) as [[b g] r].
    rewrite (cons_middle (detect_color b g r) colors (label_at fr0 sx sy <$> rest)), app_assoc.
    apply IH; [by rewrite put_text_height, rectangle_height
              | by rewrite put_text_width, rectangle_width | done | done | done |].
    intros rc Hrc. destruct (Hc rc (list_elem_of_further _ _ _ Hrc)) as (Hy' & Hx' & Hp').
    split; [done|split; [done|]]. rewrite Forall_forall in Hle. specialize (Hle rc Hrc).
    destruct rc as [row' col']. cbn [fst snd] in *.
    rewrite put_text_footprint, rectangle_footprint; [done | apply rect_away_read; lia | lia |].
    apply text_away_read; [lia | lia | lia | apply detect_color_length |].
    intros Heq. apply Hnin. by rewrite Heq.
Qed.

Lemma grid_centers_valid fr :
  140 <= height fr -> 201 <= width fr ->
  Forall (cell_valid (height fr) (width fr) (width fr / 2 - grid_size / 2) (height fr - grid_size - 30))
    grid_cells.
Proof.
  intros Hh Hw. apply Forall_forall. intros rc Hrc.
  destruct (grid_cells_range rc Hrc). unfold grid_size. change (300 / 2) with 150.
  pose proof (Z.div_mod (width fr) 2 ltac:(lia)). pose proof (Z.mod_pos_bound (width fr) 2 ltac:(lia)).
  split; apply py_index_valid; lia.
Qed.

(** What the loop returns is one colour letter per cell. *)
Lemma sample_cells_inr sx sy fr cells colors out fr' :
  sample_cells sx sy fr cells colors = inr (out, fr') ->
  exists cs, out = colors ++ cs /\ length cs = length cells /\
    Forall (λ x, exists c, x = color_letter c) cs.
Proof.
  revert fr colors. induction cells as [|[row col] rest IH]; intros fr colors Hs.
  - injection Hs as <- _. exists []. by rewrite app_nil_r.
  - rewrite sample_cells_cons in Hs. cbn zeta in Hs.
    apply pbind_inr_inv in Hs as ([[b g] r] & _ & Hs).
    destruct (IH _ _ Hs) as (cs & -> & Hl & Hf).
    exists (detect_color b g r :: cs). rewrite <- app_assoc. cbn.
    repeat split; [lia | constructor; [apply detect_color_is_letter | done]].
Qed.

Lemma sample_grid_reading fr colors fr' :
  sample_grid fr = inr (colors, fr') -> reading_ok colors.
Proof.
  unfold sample_grid. intros Hs. destruct (sample_cells_inr _ _ _ _ _ _ _ Hs) as (cs & -> & Hl & Hf).
  split; [cbn; by rewrite Hl, grid_cells_eq | done].
Qed.

End SampleLemmas.

(** Sampling a large enough frame succeeds. *)
Lemma sample_grid_total `{CanvasOk} fr :
  140 <= height fr -> 201 <= width fr ->
  exists colors fr', sample_grid fr = inr (colors, fr') /\ reading_ok colors /\
    height fr' = height fr /\ width fr' = width fr.
Proof.
  intros Hh Hw. unfold sample_grid.
  destruct (sample_cells_ok _ _ fr grid_cells [] (grid_centers_valid fr Hh Hw))
    as (cs & fr' & -> & Hl & Hf & Hh' & Hw').
  exists cs, fr'. by repeat split.
Qed.

(** What sampling reads, on every frame large enough: the label of a
    cell is the class of the pixel numpy reads at its centre. *)
Lemma sample_grid_read `{CanvasOk} fr :
  140 <= height fr -> 201 <= width fr ->
  exists fr', sample_grid fr =
    inr ((λ rc, let '(y, x) := cell_center (height fr) (width fr) rc.1 rc.2 in
                let '(b, g, r) := pixel_at fr (y mod height fr) x in detect_color b g r) <$> grid_cells, fr').
Proof.
  intros Hh Hw. unfold sample_grid.
  pose proof (Z.div_mod (width fr) 2 ltac:(lia)). pose proof (Z.mod_pos_bound (width fr) 2 ltac:(lia)).
  destruct (sample_cells_centers (width fr / 2 - grid_size / 2) (height fr - grid_size - 30) fr fr
              grid_cells [] eq_refl eq_refl ltac:(lia) grid_cells_NoDup grid_cells_sorted) as [fr' Hfr'].
  { intros rc Hrc. destruct (grid_cells_range rc Hrc).
    unfold grid_size. change (300 / 2) with 150. split; [lia | split; [lia | done]]. }
  exists fr'. rewrite Hfr'. do 3 f_equal. apply list_fmap_ext. intros _ [row col] _.
  unfold label_at, cell_center, grid_size. cbn [fst snd]. change (300 / 2) with 150.
  replace (height fr - 300 - 30 + row * 100 + 50) with (height fr - 280 + 100 * row) by lia.
  by replace (width fr / 2 - 150 + col * 100 + 50) with (width fr / 2 - 100 + 100 * col) by lia.
Qed.

(** The loop raises nothing but IndexError. *)
Lemma sample_cells_inl `{Canvas} sx sy fr cells colors e :
  sample_cells sx sy fr cells colors = inl e -> e = IndexError.
Proof.
  revert fr colors. induction cells as [|[row col] rest IH]; intros fr colors; [done|].
  rewrite sample_cells_cons. cbn zeta. unfold frame_get.
  repeat case_match; cbn [pbind praise pret]; try (intros [= <-]; done).
  destruct (pixel_at _ _ _) as [[b g] r]. apply IH.
Qed.

(** Sampling fails only on a frame too small for the grid, with IndexError. *)
Lemma sample_grid_error `{CanvasOk} fr e :
  sample_grid fr = inl e -> e = IndexError /\ (height fr < 140 \/ width fr < 201).
Proof.
  intros He. split; [exact (sample_cells_inl _ _ _ _ _ _ He)|].
  destruct (Z_lt_ge_dec (height fr) 140) as [|Hh]; [by left|].
  destruct (Z_lt_ge_dec (width fr) 201) as [|Hw]; [by right|].
  destruct (sample_grid_total fr ltac:(lia) ltac:(lia)) as (c & fr' & E & _). congruence.
Qed.

(** ** Properties *)

(** C16.  A frame at least 140 rows high and 201 columns wide is sampled
    without error: the grid gives nine colour letters (a reading the
    scan loop accepts) and the annotated frame keeps the frame's size. *)
Theorem sample_grid_ok `{CanvasOk} fr :
  140 <= height fr -> 201 <= width fr ->
  exists colors fr', sample_grid fr = inr (colors, fr') /\ reading_ok colors /\
    height fr' = height fr /\ width fr' = width fr.
Proof. apply sample_grid_total. Qed.

Lemma sample_grid_ok_witness :
  exists colors fr', sample_grid (mk_frame 480 640 (λ _ _, (0, 165, 255))) = inr (colors, fr') /\
    reading_ok colors /\ height fr' = 480 /\ width fr' = 640.
Proof. apply (sample_grid_ok (mk_frame 480 640 (λ _ _, (0, 165, 255)))); cbn; lia. Defined.

(** C17.  A smaller frame makes the sampling raise IndexError: the top
    row's centre [height - 280] is below [-height] when the frame has
    fewer than 140 rows, the right column's centre [width // 2 + 100] is
    past the last column when it has fewer than 201 columns. *)
Theorem sample_grid_small_frame `{CanvasOk} fr :
  0 <= height fr -> 0 <= width fr -> height fr < 140 \/ width fr < 201 ->
  sample_grid fr = inl IndexError.
Proof.
  intros Hh Hw Hsmall. unfold sample_grid. apply sample_cells_error.
  unfold grid_size. change (300 / 2) with 150.
  pose proof (Z.div_mod (width fr) 2 ltac:(lia)). pose proof (Z.mod_pos_bound (width fr) 2 ltac:(lia)).
  apply Exists_exists. destruct (Z_lt_ge_dec (height fr) 140).
  - exists (0, 0). split; [rewrite grid_cells_eq; apply list_elem_of_here|].
    intros [[y Hy] _]. cbn [fst snd] in Hy. by rewrite py_index_None in Hy by lia.
  - exists (0, 2). split; [rewrite grid_cells_eq; by repeat constructor|].
    intros [_ [x Hx]]. cbn [fst snd] in Hx. by rewrite py_index_None in Hx by lia.
Qed.

Lemma sample_grid_small_frame_witness :
  sample_grid (mk_frame 120 640 (λ _ _, (0, 0, 0))) = inl IndexError.
Proof. apply (sample_grid_small_frame (mk_frame 120 640 (λ _ _, (0, 0, 0)))); cbn; lia. Defined.

(** C18.  Sampling reads the frame it is given: on a frame at least 280
    rows high and 201 columns wide, the label of cell [(row, col)] is
    [detect_color] of the frame's pixel at row [height - 280 + 100 row]
    and column [width // 2 - 100 + 100 col], whatever the rectangles and
    labels drawn on the frame before it is read. *)
Theorem sample_grid_centers `{CanvasOk} fr :
  280 <= height fr -> 201 <= width fr ->
  exists fr', sample_grid fr =
    inr ((λ rc, let '(y, x) := cell_center (height fr) (width fr) rc.1 rc.2 in
                let '(b, g, r) := pixel_at fr y x in detect_color b g r) <$> grid_cells, fr').
Proof.
  intros Hh Hw. destruct (sample_grid_read fr ltac:(lia) Hw) as [fr' ->]. exists fr'.
  do 2 f_equal. apply list_fmap_ext. intros i [row col] Hi.
  apply list_elem_of_lookup_2, grid_cells_range in Hi. cbn [fst snd] in Hi.
  unfold cell_center. by rewrite (Z.mod_small (height fr - 280 + 100 * row)) by lia.
Qed.

Lemma sample_grid_centers_witness :
  exists fr', sample_grid (mk_frame 480 640 (λ _ _, (255, 0, 0))) =
    inr ((λ rc, let '(y, x) := cell_center 480 640 rc.1 rc.2 in
                let '(b, g, r) := pixel_at (mk_frame 480 640 (λ _ _, (255, 0, 0))) y x in
                detect_color b g r) <$> grid_cells, fr').
Proof. apply (sample_grid_centers (mk_frame 480 640 (λ _ _, (255, 0, 0)))); cbn; lia. Defined.

(** A frame 200 rows high whose top half is white and bottom half blue. *)
Definition banded_frame : frame :=
  mk_frame 200 640 (λ y _, if y <? 100 then (255, 255, 255) else (255, 0, 0)).

(** C19.  Frames lower than 280 rows are not clamped: on every frame
    at least 140 rows high and 201 columns wide, cell [(row, col)] is
    labelled from the pixel numpy reads at row
    [(height - 280 + 100 row) mod height], whatever was drawn before.
    Below 280 rows the top row's centres lie above the frame and are
    read [height] rows lower, at row [2 height - 280] (below 180 rows the
    middle row wraps as well), instead of raising or being clamped. *)
Theorem sample_grid_wraps `{CanvasOk} fr :
  140 <= height fr -> 201 <= width fr ->
  exists fr', sample_grid fr =
    inr ((λ rc, let '(y, x) := cell_center (height fr) (width fr) rc.1 rc.2 in
                let '(b, g, r) := pixel_at fr (y mod height fr) x in detect_color b g r) <$> grid_cells, fr').
Proof. apply sample_grid_read. Qed.

Lemma sample_grid_wraps_witness :
  exists fr', sample_grid banded_frame =
    inr ((λ rc, let '(y, x) := cell_center 200 640 rc.1 rc.2 in
                let '(b, g, r) := pixel_at banded_frame (y mod 200) x in detect_color b g r) <$> grid_cells, fr').
Proof. apply (@sample_grid_wraps paint_canvas paint_canvas_ok banded_frame); cbn; lia. Defined.

(** On [banded_frame] the top row of the grid reads the blue bottom
    band, the same pixels as the bottom row. *)
Example banded_frame_top_row :
  match sample_grid banded_frame with
  | inr (colors, _) => colors = ["B"; "B"; "B"; "W"; "W"; "W"; "B"; "B"; "B"]
  | inl _ => False
  end.
Proof. vm_compute. reflexivity. Qed.

End Sampler.
