(* ===== verification/CaptureSession.v ===== *)
(** * CaptureSession: [scan_single_face] (src/RCsolver.py, lines 82-150)

    The session opens the camera and loops over frames: it samples the
    grid ([Sampler.sample_grid]), draws the banner that depends on
    whether a reading has been captured, shows the frame, and handles the
    key read by [cv2.waitKey(30) & 0xFF]: space captures a copy of the
    current labels (once), Enter after a capture ends the session, [q]
    sets the result to [None] and ends it.  A failed [cap.read()] also
    ends it.  After the loop the camera is released and the windows are
    destroyed; the result is the captured list ([[]] when nothing was
    captured) or [None].

    The camera is an input: whether it opened, and the sequence of frames
    it delivers with the key code [waitKey] returns after each; the read
    after the last frame fails.  The session's effects are a list of
    [event]s: console lines, frames shown, the release of the camera and
    the destruction of the windows.  An exception raised by the sampling
    propagates out of the function with the events so far.

    [phase] and [spec_key] are the capture protocol of the specification
    (AwaitingCapture, Captured, Confirmed, Cancelled); the refinement
    theorem relates the code's loop to runs of that machine. *)

From S2P Require Import Prelude.
From S2P Require Import Hsv ColorClassifier FaceIdentifier PaletteTranslator ScanOrchestrator FaceSampler.

Module Capture.

Import Orchestrator Sampler.

Local Open Scope Z_scope.

(** ** State, inputs and effects *)

Record sess := mk_sess {
  face_colors : option (list string);
  captured : bool
}.

Record session_input := mk_input {
  cam_opened : bool;
  reads : list (frame * Z)
}.

Inductive event :=
| Print (s : string)
| Show (fr : frame)
| Release
| DestroyWindows.

Definition key_space : Z := 32.
Definition key_enter : Z := 13.
Definition key_q : Z := 113.

(** ** One frame (lines 97-146) *)

(** The banner of lines 125-130; [''.join(None)] would raise TypeError. *)
Definition banner (st : sess) : pyres string :=
  if captured st then
    match face_colors st with
    | Some l => pret ("CAPTURED: " +:+ String.concat "" l +:+ " - press ENTER to confirm")
    | None => praise TypeError
    end
  else pret "position cube face in grid, space to capture".

(** Lines 137-146: the new state and whether the loop breaks. *)
Definition handle_key (st : sess) (colors : list string) (key : Z) : list event * sess * bool :=
  let k := Z.land key 255 in
  if (k =? key_space) && negb (captured st) then
    ([Print ("captured: " +:+ String.concat "" colors)], mk_sess (Some colors) true, false)
  else if (k =? key_enter) && captured st then ([], st, true)
  else if k =? key_q then ([], mk_sess None (captured st), true)
  else ([], st, false).

Section Session.
Context `{Canvas}.

Definition session_frame (st : sess) (fr : frame) (key : Z) : list event * pyres (sess * bool) :=
  match sample_grid fr with
  | inl e => ([], inl e)
  | inr (colors, fr) =>
      match banner st with
      | inl e => ([], inl e)
      | inr text =>
          let fr := put_text fr text (10, 30) (if captured st then 600 else 700)
                      (if captured st then (0, 255, 0) else (0, 0, 0)) 2 in
          let fr := put_text fr "q to quit" (10, 60) 700 (0, 0, 0) 2 in
          let '(evs, st', brk) := handle_key st colors key in
          (Show fr :: evs, inr (st', brk))
      end
  end.

(** The [while True] loop; the read after the last frame fails. *)
Fixpoint session_loop (st : sess) (rs : list (frame * Z)) (evs : list event)
    : list event * pyres sess :=
  match rs with
  | [] => (evs, inr st)
  | (fr, key) :: rest =>
      let '(evs', r) := session_frame st fr key in
      match r with
      | inl e => (evs ++ evs', inl e)
      | inr (st', true) => (evs ++ evs', inr st')
      | inr (st', false) => session_loop st' rest (evs ++ evs')
      end
  end.

Definition scan_single_face (inp : session_input) : list event * pyres (option (list string)) :=
  if negb (cam_opened inp) then ([Print "camera not working"], inr None)
  else
    let '(evs, r) := session_loop (mk_sess (Some []) false) (reads inp) [] in
    match r with
    | inl e => (evs, inl e)
    | inr st => (evs ++ [Release; DestroyWindows], inr (face_colors st))
    end.

End Session.

(** The console lines of a list of events. *)
Definition printed (evs : list event) : list string :=
  omap (λ e, match e with Print s => Some s | _ => None end) evs.

(** The session as the scan loop sees it ([FaceScanner]). *)
#[export] Instance session_scanner `{Canvas} : FaceScanner session_input :=
  λ inp, let '(evs, r) := scan_single_face inp in
         res <-! r ;; pret (printed evs, res).

(** ** The capture protocol of the specification *)

Inductive phase :=
| Awaiting
| Captured (l : list string)
| Confirmed (l : list string)
| Cancelled.

(** The transition on one key byte, with the labels of the frame. *)
Definition spec_key (p : phase) (colors : list string) (k : Z) : phase :=
  match p with
  | Awaiting => if k =? key_space then Captured colors else if k =? key_q then Cancelled else Awaiting
  | Captured l => if k =? key_enter then Confirmed l else if k =? key_q then Cancelled else Captured l
  | Confirmed l => Confirmed l
  | Cancelled => Cancelled
  end.

Definition terminal (p : phase) : bool :=
  match p with Confirmed _ | Cancelled => true | _ => false end.

Fixpoint spec_run (p : phase) (steps : list (list string * Z)) : phase :=
  match steps with
  | [] => p
  | (colors, k) :: rest => if terminal p then p else spec_run (spec_key p colors k) rest
  end.

(** What the code returns in each phase when the loop ends. *)
Definition code_result (p : phase) : option (list string) :=
  match p with
  | Awaiting => Some []
  | Captured l | Confirmed l => Some l
  | Cancelled => None
  end.

(** What the specification returns: a reading only once confirmed. *)
Definition spec_result (p : phase) : option (list string) :=
  match p with
  | Confirmed l => Some l
  | _ => None
  end.

(** The code's state in each phase. *)
Definition sess_of_phase (p : phase) : sess :=
  match p with
  | Awaiting => mk_sess (Some []) false
  | Captured l | Confirmed l => mk_sess (Some l) true
  | Cancelled => mk_sess None false
  end.

(** The labels sampled on a frame and the key byte, as the spec machine
    consumes them. *)
Definition sampled `{Canvas} (rs : list (frame * Z)) : list (list string * Z) :=
  (λ '(fr, key), (match sample_grid fr with inr (c, _) => c | inl _ => [] end, Z.land key 255)) <$> rs.

(** What the loop keeps between frames: nothing captured and an empty
    list, or a captured reading of nine colour letters. *)
Definition sess_inv (st : sess) : Prop :=
  (face_colors st = Some [] /\ captured st = false) \/
  (exists l, face_colors st = Some l /\ captured st = true /\ reading_ok l).

(** ** Lemmas *)

Lemma handle_key_spec p c key :
  terminal p = false ->
  let '(evs, st', brk) := handle_key (sess_of_phase p) c key in
  if brk then terminal (spec_key p c (Z.land key 255)) = true /\
              face_colors st' = code_result (spec_key p c (Z.land key 255))
  else terminal (spec_key p c (Z.land key 255)) = false /\
       st' = sess_of_phase (spec_key p c (Z.land key 255)).
Proof.
  intros Ht. unfold handle_key, spec_key, key_space, key_enter, key_q. cbn zeta.
  generalize (Z.land key 255) as k. intros k.
  destruct p; try discriminate; cbn [sess_of_phase captured negb andb];
    destruct (k =? 32) eqn:E32, (k =? 13) eqn:E13, (k =? 113) eqn:E113;
    rewrite ?Z.eqb_eq, ?Z.eqb_neq in *; try lia; cbn; auto.
Qed.

Lemma handle_key_inv st c key evs st' :
  sess_inv st -> reading_ok c -> handle_key st c key = (evs, st', false) -> sess_inv st'.
Proof.
  intros Hi Hc. unfold handle_key.
  destruct ((Z.land key 255 =? key_space) && negb (captured st));
    [intros [= _ <-]; right; eauto|].
  destruct ((Z.land key 255 =? key_enter) && captured st); [discriminate|].
  destruct (Z.land key 255 =? key_q); [discriminate|]. by intros [= _ <-].
Qed.

Lemma handle_key_no_release st c key evs st' brk :
  handle_key st c key = (evs, st', brk) -> Release ∉ evs.
Proof.
  unfold handle_key. repeat case_match; intros [= <- _ _]; set_solver.
Qed.

Section SessionLemmas.
Context `{CanvasOk}.

(** The states the loop continues from: the initial state, and what a
    frame that does not break the loop leaves. *)
Inductive reachable : sess -> Prop :=
| reach_init : reachable (mk_sess (Some []) false)
| reach_frame st fr key c fr1 evs st' :
    reachable st -> sample_grid fr = inr (c, fr1) ->
    handle_key st c key = (evs, st', false) -> reachable st'.

Lemma reachable_inv st : reachable st -> sess_inv st.
Proof.
  induction 1 as [|st fr key c fr1 evs st' _ IH Hs Hk]; [by left|].
  eapply handle_key_inv; [exact IH | eapply sample_grid_reading, Hs | exact Hk].
Qed.

Lemma handle_key_break st c key evs st' :
  handle_key st c key = (evs, st', true) -> st' = st \/ face_colors st' = None.
Proof. unfold handle_key. repeat case_match; intros [= _ <-]; auto. Qed.

Lemma session_frame_no_release st fr key evs r :
  session_frame st fr key = (evs, r) -> Release ∉ evs.
Proof.
  unfold session_frame. destruct (sample_grid fr) as [|[c fr1]]; [intros [= <- _]; set_solver|].
  destruct (banner st); [intros [= <- _]; set_solver|].
  destruct (handle_key st c key) as [[evs' st'] brk] eqn:Hk. intros [= <- _].
  apply not_elem_of_cons. split; [discriminate | eapply handle_key_no_release, Hk].
Qed.

Lemma session_frame_step st fr key evs st' brk :
  reachable st -> session_frame st fr key = (evs, inr (st', brk)) ->
  if brk then reachable st' \/ face_colors st' = None else reachable st'.
Proof.
  intros Hr. unfold session_frame.
  destruct (sample_grid fr) as [|[c fr1]] eqn:Hs; [discriminate|].
  destruct (banner st); [discriminate|].
  destruct (handle_key st c key) as [[evs' st''] []] eqn:Hk; intros [= <- <- <-].
  - destruct (handle_key_break _ _ _ _ _ Hk) as [->|]; auto.
  - eapply reach_frame; eauto.
Qed.

Lemma session_loop_no_release st rs evs :
  Release ∉ evs -> Release ∉ (session_loop st rs evs).1.
Proof.
  revert st evs. induction rs as [|[fr key] rest IH]; intros st evs Hn; [done|].
  cbn [session_loop]. destruct (session_frame st fr key) as [evs' r] eqn:Hf.
  pose proof (session_frame_no_release _ _ _ _ _ Hf).
  assert (Release ∉ evs ++ evs') by (rewrite elem_of_app; tauto).
  destruct r as [|[st' []]]; [done | done | by apply IH].
Qed.

Lemma session_loop_result st rs evs evs' st' :
  reachable st -> session_loop st rs evs = (evs', inr st') ->
  reachable st' \/ face_colors st' = None.
Proof.
  revert st evs. induction rs as [|[fr key] rest IH]; intros st evs Hr; cbn [session_loop];
    [intros [= _ <-]; auto|].
  destruct (session_frame st fr key) as [evs0 r] eqn:Hf.
  destruct r as [|[st0 brk]]; [discriminate|].
  pose proof (session_frame_step _ _ _ _ _ _ Hr Hf) as Hst.
  destruct brk; [intros [= _ <-]; exact Hst | apply IH, Hst].
Qed.

Lemma spec_run_terminal p steps : terminal p = true -> spec_run p steps = p.
Proof. destruct steps as [|[??]?]; cbn; [done|]. by intros ->. Qed.

Lemma spec_run_app p s1 s2 : spec_run p (s1 ++ s2) = spec_run (spec_run p s1) s2.
Proof.
  revert p. induction s1 as [|[c k] s1 IH]; intros p; [done|]. cbn.
  destruct (terminal p) eqn:Ht; [by rewrite spec_run_terminal | apply IH].
Qed.

(** Keys that do not move the machine leave its phase as it is. *)
Lemma spec_run_stays p steps :
  terminal p = false -> Forall (λ st, spec_key p st.1 st.2 = p) steps -> spec_run p steps = p.
Proof.
  intros Ht. induction steps as [|[c k] rest IH]; intros Hf; [done|].
  apply Forall_cons in Hf as [Hk Hf]. cbn in *. rewrite Ht, Hk. by apply IH.
Qed.

Lemma sampled_app `{Canvas} rs1 rs2 : sampled (rs1 ++ rs2) = sampled rs1 ++ sampled rs2.
Proof. apply fmap_app. Qed.

(** The keys of [sampled rs] are the masked keys of [rs]. *)
Lemma sampled_keys `{Canvas} (P : Z -> Prop) rs :
  Forall (λ '(_, k), P (Z.land k 255)) rs -> Forall (λ st, P st.2) (sampled rs).
Proof.
  intros Hf. unfold sampled. apply Forall_fmap. eapply Forall_impl; [exact Hf|].
  by intros [fr k].
Qed.

Lemma sampled_cons fr key rest c fr1 :
  sample_grid fr = inr (c, fr1) ->
  sampled ((fr, key) :: rest) = (c, Z.land key 255) :: sampled rest.
Proof. intros Hs. unfold sampled. cbn [fmap list_fmap]. by rewrite Hs. Qed.

Lemma banner_phase p : terminal p = false -> exists t, banner (sess_of_phase p) = inr t.
Proof. destruct p; cbn; try discriminate; eauto. Qed.

(** The loop runs the protocol's machine. *)
Lemma session_loop_refines p rs evs :
  terminal p = false ->
  Forall (λ '(fr, _), exists c fr1, sample_grid fr = inr (c, fr1)) rs ->
  exists evs' st', session_loop (sess_of_phase p) rs evs = (evs', inr st') /\
    face_colors st' = code_result (spec_run p (sampled rs)).
Proof.
  revert p evs. induction rs as [|[fr key] rest IH]; intros p evs Ht Hall.
  - exists evs, (sess_of_phase p). split; [done|]. by destruct p.
  - apply Forall_cons in Hall as [(c & fr1 & Hs) Hall].
    rewrite (sampled_cons _ _ _ _ _ Hs). cbn [spec_run]. rewrite Ht.
    cbn [session_loop]. unfold session_frame at 1. rewrite Hs.
    destruct (banner_phase p Ht) as [t ->].
    pose proof (handle_key_spec p c key Ht) as Hk.
    destruct (handle_key (sess_of_phase p) c key) as [[evs0 st0] []].
    + destruct Hk as [Ht' Hr]. eexists _, st0. split; [done|].
      by rewrite spec_run_terminal.
    + destruct Hk as [Ht' ->]. by apply IH.
Qed.

Lemma banner_reachable st : reachable st -> exists text, banner st = inr text.
Proof.
  intros Hr. unfold banner. destruct (reachable_inv st Hr) as [[_ ->]|(l & Hl & -> & _)]; [eauto|].
  rewrite Hl. eauto.
Qed.

(** On the key byte of [q] the frame ends the loop. *)
Lemma session_frame_quit st fr key c fr1 :
  reachable st -> sample_grid fr = inr (c, fr1) -> Z.land key 255 = key_q ->
  exists evs st', session_frame st fr key = (evs, inr (st', true)).
Proof.
  intros Hr Hs Hk. destruct (banner_reachable st Hr) as [text Hb].
  unfold session_frame. rewrite Hs, Hb. unfold handle_key. cbn zeta. rewrite Hk. cbn.
  destruct (captured st); eauto.
Qed.

(** Frames after the one where [q] is pressed are never read. *)
Lemma session_loop_quit st rs1 fr key rs2 evs c fr1 :
  reachable st -> sample_grid fr = inr (c, fr1) -> Z.land key 255 = key_q ->
  session_loop st (rs1 ++ (fr, key) :: rs2) evs = session_loop st (rs1 ++ [(fr, key)]) evs.
Proof.
  intros Hr Hs Hk. revert st evs Hr. induction rs1 as [|[fr0 k0] rs1 IH]; intros st evs Hr.
  - cbn [app session_loop]. destruct (session_frame_quit st fr key c fr1 Hr Hs Hk) as (evs' & st' & ->).
    reflexivity.
  - cbn [app session_loop]. destruct (session_frame st fr0 k0) as [evs' [e|[st' []]]] eqn:Hf; try done.
    apply IH. exact (session_frame_step _ _ _ _ _ _ Hr Hf).
Qed.

(** An exception of a frame comes from its sampling. *)
Lemma session_frame_inl st fr key evs e :
  reachable st -> session_frame st fr key = (evs, inl e) -> sample_grid fr = inl e.
Proof.
  intros Hr. unfold session_frame.
  destruct (sample_grid fr) as [e'|[c fr1]]; [by intros [= _ ->]|].
  destruct (banner_reachable st Hr) as [text ->].
  by destruct (handle_key st c key) as [[??]?].
Qed.

Lemma session_loop_inl st rs evs evs' e :
  reachable st -> session_loop st rs evs = (evs', inl e) ->
  exists fr key, (fr, key) ∈ rs /\ sample_grid fr = inl e.
Proof.
  revert st evs. induction rs as [|[fr key] rest IH]; intros st evs Hr; cbn [session_loop]; [done|].
  destruct (session_frame st fr key) as [evs0 [e0|[st0 []]]] eqn:Hf; intros Hl.
  - injection Hl as _ <-. exists fr, key. split; [left | exact (session_frame_inl _ _ _ _ _ Hr Hf)].
  - discriminate.
  - destruct (IH st0 _ (session_frame_step _ _ _ _ _ _ Hr Hf) Hl) as (fr' & key' & Hin & He).
    exists fr', key'. split; [by right | done].
Qed.

(** What the scan loop sees raised comes from the sampling of one of
    the session's frames. *)
Lemma session_scanner_inl (inp : session_input) e :
  scan_face inp = inl e -> exists fr key, (fr, key) ∈ reads inp /\ sample_grid fr = inl e.
Proof.
  cbv [scan_face session_scanner]. unfold scan_single_face.
  destruct (negb (cam_opened inp)); [discriminate|].
  destruct (session_loop _ _ _) as [evs [e'|st]] eqn:Hl; [|discriminate].
  intros [= ->]. exact (session_loop_inl _ _ _ _ _ reach_init Hl).
Qed.

End SessionLemmas.

Lemma scan_single_face_shape `{CanvasOk} inp evs l :
  scan_single_face inp = (evs, inr (Some l)) -> l = [] \/ reading_ok l.
Proof.
  unfold scan_single_face. destruct (negb (cam_opened inp)); [by intros [= _]|].
  destruct (session_loop _ _ _) as [evs0 [e|st]] eqn:Hl; [discriminate|]. intros [= _ Hf].
  destruct (session_loop_result _ _ _ _ _ reach_init Hl) as [Hr|Hn]; [|congruence].
  destruct (reachable_inv _ Hr) as [[Hs _]|(l' & Hs & _ & Hok)]; rewrite Hs in Hf;
    injection Hf as <-; auto.
Qed.

#[export] Instance session_scanner_shape `{CanvasOk} : FaceScannerOk session_input.
Proof.
  intros inp out l. cbv [scan_face session_scanner].
  destruct (scan_single_face inp) as [evs [e|r]] eqn:Hs; [discriminate|].
  cbn. intros [= _ ->]. by eapply scan_single_face_shape.
Qed.

(** ** Properties *)

(** The session runs the protocol's machine. *)
Lemma scan_single_face_spec `{CanvasOk} inp :
  cam_opened inp = true ->
  Forall (λ '(fr, _), exists c fr1, sample_grid fr = inr (c, fr1)) (reads inp) ->
  (scan_single_face inp).2 = inr (code_result (spec_run Awaiting (sampled (reads inp)))).
Proof.
  intros Ho Hall. unfold scan_single_face. rewrite Ho. cbn [negb].
  destruct (session_loop_refines Awaiting (reads inp) [] eq_refl Hall) as (evs & st & Hl & Hf).
  change (mk_sess (Some []) false) with (sess_of_phase Awaiting). rewrite Hl. cbn. by rewrite Hf.
Qed.

(** C20.  Refinement of the capture protocol: when the camera opens and
    every frame is sampled without error, [scan_single_face] returns what
    the protocol's machine, run on the sampled labels and key bytes from
    AwaitingCapture, gives in the phase it reaches: [None] once
    cancelled, the snapshot once confirmed, and, when the camera stops
    delivering frames first, the snapshot or the empty list. *)
Theorem scan_single_face_refines `{CanvasOk} inp :
  cam_opened inp = true ->
  Forall (λ '(fr, _), exists c fr1, sample_grid fr = inr (c, fr1)) (reads inp) ->
  (scan_single_face inp).2 = inr (code_result (spec_run Awaiting (sampled (reads inp)))).
Proof. apply scan_single_face_spec. Qed.

Lemma sample_grid_some `{CanvasOk} fr :
  140 <= height fr -> 201 <= width fr -> exists c fr1, sample_grid fr = inr (c, fr1).
Proof. intros Hh Hw. destruct (sample_grid_total fr Hh Hw) as (c & fr1 & E & _). eauto. Qed.

Definition orange_frame : frame := mk_frame 480 640 (λ _ _, (0, 165, 255)).

Lemma scan_single_face_refines_witness :
  (scan_single_face (mk_input true [(orange_frame, 32); (orange_frame, -1); (orange_frame, 13)])).2 =
  inr (code_result (spec_run Awaiting (sampled [(orange_frame, 32); (orange_frame, -1); (orange_frame, 13)]))).
Proof.
  apply (scan_single_face_refines (mk_input true [(orange_frame, 32); (orange_frame, -1); (orange_frame, 13)]));
    [reflexivity|].
  repeat (constructor; [apply sample_grid_some; cbn; lia|]). constructor.
Defined.

(** C21.  What the session promises the scan loop ([FaceScannerOk]): a
    list it returns is empty (nothing captured) or nine colour letters. *)
Theorem session_scanner_ok `{CanvasOk} (inp : session_input) out l :
  scan_face inp = inr (out, Some l) -> l = [] \/ reading_ok l.
Proof. apply scan_face_shape. Qed.

Lemma session_scanner_ok_witness :
  scan_face (mk_input true [(orange_frame, 32); (orange_frame, 13)]) =
    inr (["captured: OOOOOOOOO"], Some ["O"; "O"; "O"; "O"; "O"; "O"; "O"; "O"; "O"]) /\
  (["O"; "O"; "O"; "O"; "O"; "O"; "O"; "O"; "O"] = [] \/ reading_ok ["O"; "O"; "O"; "O"; "O"; "O"; "O"; "O"; "O"]).
Proof.
  assert (E : scan_face (mk_input true [(orange_frame, 32); (orange_frame, 13)]) =
    inr (["captured: OOOOOOOOO"], Some ["O"; "O"; "O"; "O"; "O"; "O"; "O"; "O"; "O"]))
    by (vm_compute; reflexivity).
  split; [exact E | exact (session_scanner_ok _ _ _ E)].
Defined.

(** C22.  The camera is released on normal exit only: when the session
    returns, its last two effects release the camera and destroy the
    windows and it released nothing before; when the sampling raises,
    the exception leaves the session without releasing the camera. *)
Theorem scan_single_face_release `{CanvasOk} inp :
  cam_opened inp = true ->
  match scan_single_face inp with
  | (evs, inl _) => Release ∉ evs
  | (evs, inr _) => exists evs0, evs = evs0 ++ [Release; DestroyWindows] /\ Release ∉ evs0
  end.
Proof.
  intros Ho. unfold scan_single_face. rewrite Ho. cbn [negb].
  pose proof (session_loop_no_release (mk_sess (Some []) false) (reads inp) [] (not_elem_of_nil _)).
  destruct (session_loop _ _ _) as [evs [e|st]]; cbn in *; eauto.
Qed.

Definition small_frame : frame := mk_frame 100 640 (λ _ _, (0, 0, 0)).

Lemma scan_single_face_release_witness :
  match scan_single_face (mk_input true [(small_frame, 32)]) with
  | (evs, inl _) => Release ∉ evs
  | (evs, inr _) => exists evs0, evs = evs0 ++ [Release; DestroyWindows] /\ Release ∉ evs0
  end.
Proof. apply (scan_single_face_release (mk_input true [(small_frame, 32)])). reflexivity. Defined.

(** C23.  The key byte is [waitKey(30) & 0xFF]: codes that agree modulo
    256 act alike, and [-1] (no key pressed within 30 ms) changes
    nothing and does not end the loop. *)
Theorem handle_key_mask st c key n :
  handle_key st c (key + 256 * n) = handle_key st c key /\ handle_key st c (-1) = ([], st, false).
Proof.
  split.
  - unfold handle_key. change 255 with (Z.ones 8). rewrite !Z.land_ones by lia.
    by rewrite Z.mul_comm, Z_mod_plus_full.
  - unfold handle_key. cbn. by destruct (captured st), st.
Qed.

(** C24.  A session that ends without a confirmation returns the
    unconfirmed snapshot: when space is pressed on a frame, no earlier
    key was space or [q], and the camera stops delivering frames before
    Enter or [q] is pressed, the code returns the nine labels of that
    frame, where the specification's machine is still awaiting the
    confirmation and returns nothing. *)
Theorem scan_single_face_unconfirmed `{CanvasOk} rs1 fr key rs2 c fr1 :
  Forall (λ '(fr, _), exists c fr1, sample_grid fr = inr (c, fr1)) (rs1 ++ rs2) ->
  sample_grid fr = inr (c, fr1) ->
  Forall (λ '(_, k), Z.land k 255 <> key_space /\ Z.land k 255 <> key_q) rs1 ->
  Z.land key 255 = key_space ->
  Forall (λ '(_, k), Z.land k 255 <> key_enter /\ Z.land k 255 <> key_q) rs2 ->
  (scan_single_face (mk_input true (rs1 ++ (fr, key) :: rs2))).2 = inr (Some c) /\ reading_ok c /\
  spec_result (spec_run Awaiting (sampled (rs1 ++ (fr, key) :: rs2))) = None.
Proof.
  intros Hall Hs H1 Hk H2.
  assert (Hrun : spec_run Awaiting (sampled (rs1 ++ (fr, key) :: rs2)) = Captured c).
  { rewrite sampled_app, (sampled_cons _ _ _ _ _ Hs), spec_run_app, Hk.
    rewrite (spec_run_stays Awaiting); [|done|].
    - cbn. apply spec_run_stays; [done|]. eapply Forall_impl; [exact (sampled_keys (λ k, k <> key_enter /\ k <> key_q) _ H2)|].
      intros [c' k'] [Hne Hnq]. cbn in *. by rewrite (proj2 (Z.eqb_neq _ _) Hne), (proj2 (Z.eqb_neq _ _) Hnq).
    - eapply Forall_impl; [exact (sampled_keys (λ k, k <> key_space /\ k <> key_q) _ H1)|].
      intros [c' k'] [Hns Hnq]. cbn in *. by rewrite (proj2 (Z.eqb_neq _ _) Hns), (proj2 (Z.eqb_neq _ _) Hnq). }
  split; [|split; [exact (sample_grid_reading _ _ _ Hs) | by rewrite Hrun]].
  rewrite scan_single_face_spec; [cbn [reads]; by rewrite Hrun | done |].
  apply Forall_app in Hall as [Ha1 Ha2]. cbn [reads]. apply Forall_app. split; [done|].
  constructor; [eauto | done].
Qed.

Lemma scan_single_face_unconfirmed_witness :
  exists c fr1, sample_grid orange_frame = inr (c, fr1) /\
  (scan_single_face (mk_input true ([(orange_frame, -1)] ++ (orange_frame, 32) :: [(orange_frame, -1)]))).2 =
    inr (Some c) /\ reading_ok c /\
  spec_result (spec_run Awaiting (sampled ([(orange_frame, -1)] ++ (orange_frame, 32) :: [(orange_frame, -1)]))) = None.
Proof.
  destruct (sample_grid_some orange_frame) as (c & fr1 & Hs); [cbn; lia | cbn; lia |].
  exists c, fr1. split; [done|].
  apply (scan_single_face_unconfirmed [(orange_frame, -1)] orange_frame 32 [(orange_frame, -1)] c fr1);
    [| exact Hs | | reflexivity |].
  - repeat (constructor; [apply sample_grid_some; cbn; lia|]). constructor.
  - repeat constructor; vm_compute; discriminate.
  - repeat constructor; vm_compute; discriminate.
Defined.

(** C29.  Termination of the capture loop on [q]: the session stops at
    the first frame on which [q] is pressed (after [& 0xFF]), whatever
    was captured before; no later frame is read and the result is the
    same as if the camera had delivered nothing more. *)
Theorem scan_single_face_quit `{CanvasOk} rs1 fr key rs2 c fr1 :
  sample_grid fr = inr (c, fr1) -> Z.land key 255 = key_q ->
  scan_single_face (mk_input true (rs1 ++ (fr, key) :: rs2)) =
  scan_single_face (mk_input true (rs1 ++ [(fr, key)])).
Proof.
  intros Hs Hk. unfold scan_single_face. cbn [cam_opened reads negb].
  by rewrite (session_loop_quit _ rs1 fr key rs2 [] c fr1 reach_init Hs Hk).
Qed.

Lemma scan_single_face_quit_witness :
  exists c fr1, sample_grid orange_frame = inr (c, fr1) /\
  scan_single_face (mk_input true ([(orange_frame, 32)] ++ (orange_frame, 369) :: [(orange_frame, 13)])) =
  scan_single_face (mk_input true ([(orange_frame, 32)] ++ [(orange_frame, 369)])).
Proof.
  destruct (sample_grid_some orange_frame) as (c & fr1 & Hs); [cbn; lia | cbn; lia |].
  exists c, fr1. split; [done|].
  apply (scan_single_face_quit [(orange_frame, 32)] orange_frame 369 [(orange_frame, 13)] c fr1 Hs).
  reflexivity.
Defined.

End Capture.
