(* ===== verification/SolutionFormatter.v ===== *)
(** * SolutionFormatter: [convert_solution_to_readable] and
    [print_readable_solution] (src/RCsolver.py, lines 227-281)

    The solver's answer is a string of moves such as ["U1 R2 F3 (3f)"]:
    a face letter and a digit per move, then the move count in
    parentheses.  The formatter removes the parentheses, splits on
    whitespace ([str.split()] with no argument: runs of whitespace, no
    empty fields), drops every token ending in ['f'], and keeps the
    tokens whose first character is a face of [face_names] and whose
    second is a digit of [directions], as ["<face name> <direction>"].
    [print_readable_solution] prints them numbered with [f"{i:2d}. "]
    between rules of ["-:" * 50].

    Characters are Rocq's [ascii]: code points 0-255, of which Python's
    [str.isspace] holds for 9-13, 28-32, 133 and 160.  The degree sign
    of the direction names is kept as the bytes of its UTF-8 encoding,
    as printed. *)

From S2P Require Import Prelude.

Module Formatter.

(** ** Python string operations *)

Definition py_isspace (a : ascii) : bool :=
  let n := nat_of_ascii a in
  (Nat.leb 9 n && Nat.leb n 13) || (Nat.leb 28 n && Nat.leb n 32) ||
  Nat.eqb n 133 || Nat.eqb n 160.

(** [str.split()]: [cur] is the word being read. *)
Fixpoint split_go (l cur : list ascii) : list (list ascii) :=
  match l with
  | [] => match cur with [] => [] | _ => [cur] end
  | a :: l' =>
      if py_isspace a then
        match cur with [] => split_go l' [] | _ => cur :: split_go l' [] end
      else split_go l' (cur ++ [a])
  end.

Definition py_split (s : string) : list string :=
  String.string_of_list_ascii <$> split_go (String.list_ascii_of_string s) [].

(** [s.replace(c, '')] for a one-character [c]. *)
Definition py_remove_char (s : string) (c : ascii) : string :=
  String.string_of_list_ascii (filter (λ a, a ≠ c) (String.list_ascii_of_string s)).

(** [s.endswith(c)] for a one-character [c]. *)
Definition py_endswith_char (s : string) (c : ascii) : bool :=
  match last (String.list_ascii_of_string s) with
  | Some a => bool_decide (a = c)
  | None => false
  end.

(** [s * n] *)
Fixpoint py_str_repeat (s : string) (n : nat) : string :=
  match n with O => "" | S n' => s +:+ py_str_repeat s n' end.

(** [f"{i:2d}"]: right-aligned in two columns. *)
Definition fmt_2d (i : Z) : string :=
  let s := py_str_int i in
  if decide (String.length s < 2)%nat then " " +:+ s else s.

(** ** The formatter (lines 227-266) *)

Definition face_names : list (string * string) :=
  [("L", "LEFT/GREEN"); ("D", "DOWN/YELLOW"); ("B", "BACK/ORANGE");
   ("R", "RIGHT/BLUE"); ("U", "UP/WHITE"); ("F", "FRONT/RED")].

Definition directions : list (string * string) :=
  [("1", "clockwise 90°"); ("2", "180°"); ("3", "counter-clockwise 90°")].

(** The body of the [for move in moves] loop: the entry it appends. *)
Definition readable_move (move : string) : option string :=
  if decide (2 <= String.length move)%nat then
    match String.get 0 move, String.get 1 move with
    | Some face, Some direction =>
        match dict_get face_names (String.String face EmptyString),
              dict_get directions (String.String direction EmptyString) with
        | Some face_name, Some direction_name => Some (face_name +:+ " " +:+ direction_name)
        | _, _ => None
        end
    | _, _ => None
    end
  else None.

(** [moves] after line 252. *)
Definition solution_moves (solution_string : string) : list string :=
  filter (λ move, py_endswith_char move "f"%char = false)
    (py_split (py_remove_char (py_remove_char solution_string "("%char) ")"%char)).

Definition convert_solution_to_readable (solution_string : string) : list string :=
  omap readable_move (solution_moves solution_string).

(** ** Printing (lines 268-281): the lines printed. *)

Definition rule : string := py_str_repeat "-:" 50.

Definition print_readable_solution (solution : string) : list string :=
  let readable := convert_solution_to_readable solution in
  [nl +:+ rule; "RUBIK'S CUBE SOLUTION"; rule] ++
  imap (λ i move, fmt_2d (Z.of_nat i + 1) +:+ ". " +:+ move) readable ++
  [rule; "Total moves: " +:+ py_str_int (Z.of_nat (length readable)); rule].

(** ** Moves *)

Inductive sface := FaceL | FaceD | FaceB | FaceR | FaceU | FaceF.
Inductive turn := Quarter | Half | CounterQuarter.

Definition sface_char (f : sface) : ascii :=
  match f with
  | FaceL => "L" | FaceD => "D" | FaceB => "B" | FaceR => "R" | FaceU => "U" | FaceF => "F"
  end%char.

Definition turn_char (t : turn) : ascii :=
  match t with Quarter => "1" | Half => "2" | CounterQuarter => "3" end%char.

Definition sface_name (f : sface) : string :=
  match f with
  | FaceL => "LEFT/GREEN" | FaceD => "DOWN/YELLOW" | FaceB => "BACK/ORANGE"
  | FaceR => "RIGHT/BLUE" | FaceU => "UP/WHITE" | FaceF => "FRONT/RED"
  end.

Definition turn_phrase (t : turn) : string :=
  match t with
  | Quarter => "clockwise 90°" | Half => "180°" | CounterQuarter => "counter-clockwise 90°"
  end.

(** A move as the solver writes it, and as the formatter renders it. *)
Definition move_token (m : sface * turn) : string :=
  String.String (sface_char m.1) (String.String (turn_char m.2) EmptyString).

Definition render (m : sface * turn) : string := sface_name m.1 +:+ " " +:+ turn_phrase m.2.

Definition is_digit (a : ascii) : bool := Nat.leb 48 (nat_of_ascii a) && Nat.leb (nat_of_ascii a) 57.

(** ** Lemmas *)

Definition sp : ascii := " "%char.

(** [sep.join] with a one-character separator, on character lists. *)
Definition join_list (ts : list (list ascii)) : list ascii :=
  match ts with
  | [] => []
  | t :: ts' => t ++ concat ((λ y, sp :: y) <$> ts')
  end.

(** A word: non-empty, without whitespace. *)
Definition word (t : list ascii) : Prop := t <> [] /\ Forall (λ a, py_isspace a = false) t.

Lemma split_go_word t rest cur :
  Forall (λ a, py_isspace a = false) t -> split_go (t ++ rest) cur = split_go rest (cur ++ t).
Proof.
  revert cur. induction t as [|a t IH]; intros cur Ht; [by rewrite app_nil_r|].
  apply Forall_cons in Ht as [Ha Ht]. cbn [app split_go]. rewrite Ha, IH by done.
  by rewrite <- app_assoc.
Qed.

Lemma split_go_words t ts :
  word t -> Forall word ts -> split_go (t ++ concat ((λ y, sp :: y) <$> ts)) [] = t :: ts.
Proof.
  revert t. induction ts as [|y ts IH]; intros t [Hne Ht] Hts.
  - cbn. rewrite app_nil_r, <- (app_nil_r t), split_go_word by done. cbn.
    rewrite app_nil_r. by destruct t.
  - apply Forall_cons in Hts as [Hy Hts].
    cbn [fmap list_fmap concat]. rewrite split_go_word by done. cbn.
    destruct t as [|a t]; [done|]. by rewrite IH.
Qed.

(** Splitting the join of words followed by a last word [w]. *)
Lemma split_go_join ts w :
  Forall word ts -> word w -> split_go (join_list ts ++ sp :: w) [] = ts ++ [w].
Proof.
  intros Hts Hw. destruct ts as [|t ts]; cbn [join_list app].
  - pose proof (split_go_words w [] Hw Hts) as H. cbn in H |- *.
    by rewrite app_nil_r in H.
  - apply Forall_cons in Hts as [Ht Hts]. rewrite <- app_assoc.
    replace (concat ((λ y, sp :: y) <$> ts) ++ sp :: w) with (concat ((λ y, sp :: y) <$> (ts ++ [w])))
      by (rewrite fmap_app, concat_app; cbn; by rewrite app_nil_r).
    apply split_go_words; [done|].
    apply Forall_app; split; [done | by constructor].
Qed.

Lemma split_go_join_all ts :
  Forall word ts -> split_go (join_list ts) [] = ts.
Proof.
  intros Hts. destruct ts as [|t ts]; [done|].
  apply Forall_cons in Hts as [Ht Hts]. by apply split_go_words.
Qed.

Lemma join_list_concat (xs : list string) :
  String.list_ascii_of_string (String.concat " " xs) = join_list (String.list_ascii_of_string <$> xs).
Proof.
  induction xs as [|x [|y xs] IH]; [done | cbn; by rewrite app_nil_r |].
  change (String.concat " " (x :: y :: xs)) with (x +:+ " " +:+ String.concat " " (y :: xs)).
  rewrite !string_append_list, IH. reflexivity.
Qed.

Lemma string_of_list_fmap (xs : list string) :
  String.string_of_list_ascii <$> (String.list_ascii_of_string <$> xs) = xs.
Proof.
  rewrite <- list_fmap_compose. rewrite <- (list_fmap_id xs) at 2.
  apply list_fmap_ext. intros. apply String.string_of_list_ascii_of_string.
Qed.

Lemma filter_none {A} (P : A -> Prop) `{∀ x, Decision (P x)} (l : list A) :
  Forall P l -> filter P l = l.
Proof. induction 1; [done|]. rewrite filter_cons_True by done. by f_equal. Qed.

Lemma join_list_Forall (P : ascii -> Prop) ts :
  P sp -> Forall (Forall P) ts -> Forall P (join_list ts).
Proof.
  intros Hsp Hts. destruct ts as [|t ts]; [constructor|].
  apply Forall_cons in Hts as [Ht Hts]. cbn. apply Forall_app; split; [done|].
  apply Forall_concat, Forall_fmap. eapply Forall_impl; [exact Hts|]. intros y Hy. by constructor.
Qed.

Lemma move_token_word m : word (String.list_ascii_of_string (move_token m)).
Proof. split; [discriminate|]. destruct m as [[] []]; repeat constructor. Qed.

Lemma readable_move_token m : readable_move (move_token m) = Some (render m).
Proof. by destruct m as [[] []]. Qed.

Lemma move_token_not_f m : py_endswith_char (move_token m) "f"%char = false.
Proof. by destruct m as [[] []]. Qed.

Lemma move_token_no_paren m :
  Forall (λ a, a ≠ "("%char /\ a ≠ ")"%char) (String.list_ascii_of_string (move_token m)).
Proof. destruct m as [[] []]; repeat constructor; discriminate. Qed.

Lemma omap_tokens (ms : list (sface * turn)) : omap readable_move (move_token <$> ms) = render <$> ms.
Proof.
  induction ms as [|m ms IH]; [done|].
  cbn [fmap list_fmap]. by rewrite omap_cons, readable_move_token, IH.
Qed.

Lemma digits_word (d : list ascii) :
  d <> [] -> Forall (λ a, is_digit a = true) d -> word (d ++ ["f"%char]).
Proof.
  intros Hne Hd. split; [by destruct d|].
  apply Forall_app; split; [|by repeat constructor].
  eapply Forall_impl; [exact Hd|]. intros a. unfold is_digit, py_isspace.
  rewrite andb_true_iff, !Nat.leb_le. intros [H1 H2].
  repeat (apply orb_false_iff; split); apply andb_false_iff || apply Nat.eqb_neq;
    try (left; apply Nat.leb_gt; lia); try (right; apply Nat.leb_gt; lia); lia.
Qed.

Lemma digits_no_paren (d : list ascii) :
  Forall (λ a, is_digit a = true) d -> Forall (λ a, a ≠ "("%char /\ a ≠ ")"%char) d.
Proof. intros Hd. eapply Forall_impl; [exact Hd|]. intros a Ha. split; intros ->; discriminate. Qed.

Lemma endswith_f_word (w : list ascii) :
  py_endswith_char (String.string_of_list_ascii (w ++ ["f"%char])) "f"%char = true.
Proof.
  unfold py_endswith_char. rewrite String.list_ascii_of_string_of_list_ascii, last_app. done.
Qed.

Lemma tokens_no_paren (ms : list (sface * turn)) :
  Forall (λ a, a ≠ "("%char /\ a ≠ ")"%char)
    (String.list_ascii_of_string (String.concat " " (move_token <$> ms))).
Proof.
  rewrite join_list_concat. apply join_list_Forall; [split; discriminate|].
  apply Forall_fmap, Forall_fmap, Forall_forall. intros m _. apply move_token_no_paren.
Qed.

Lemma tokens_words (ms : list (sface * turn)) :
  Forall word (String.list_ascii_of_string <$> (move_token <$> ms)).
Proof. apply Forall_fmap, Forall_fmap, Forall_forall. intros m _. apply move_token_word. Qed.

Lemma remove_parens (J D : list ascii) :
  Forall (λ a, a ≠ "("%char /\ a ≠ ")"%char) J -> Forall (λ a, a ≠ "("%char /\ a ≠ ")"%char) D ->
  filter (λ a, a ≠ ")"%char) (filter (λ a, a ≠ "("%char) (J ++ " "%char :: "("%char :: D ++ ["f"%char; ")"%char]))
  = J ++ " "%char :: D ++ ["f"%char].
Proof.
  intros HJ HD.
  assert (Hl : forall c l, Forall (λ a, a ≠ "("%char /\ a ≠ ")"%char) l -> c = "("%char \/ c = ")"%char ->
            filter (λ a, a ≠ c) l = l).
  { intros c l Hf Hc. apply filter_none. eapply Forall_impl; [exact Hf|]. intros a [] ?. subst. by destruct Hc; subst. }
  rewrite filter_app, (Hl _ J HJ (or_introl eq_refl)).
  rewrite filter_cons_True, filter_cons_False by (discriminate || tauto).
  rewrite (filter_app (λ a, a ≠ "("%char) D), (Hl "("%char D HD (or_introl eq_refl)).
  change (filter (λ a, a ≠ "("%char) ["f"%char; ")"%char]) with ["f"%char; ")"%char].
  rewrite filter_app, (Hl _ J HJ (or_intror eq_refl)), filter_cons_True by discriminate.
  rewrite filter_app, (Hl _ D HD (or_intror eq_refl)).
  by change (filter (λ a, a ≠ ")"%char) ["f"%char; ")"%char]) with ["f"%char].
Qed.

(** The characters of a word of [str.split()] come from the string. *)
Lemma split_go_chars l cur w a :
  w ∈ split_go l cur -> a ∈ w -> a ∈ l \/ a ∈ cur.
Proof.
  revert cur. induction l as [|b l IH]; intros cur Hw Ha; cbn in Hw.
  - destruct cur as [|c cur]; [set_solver|]. apply list_elem_of_singleton in Hw as ->. by right.
  - destruct (py_isspace b).
    + destruct cur as [|c cur].
      * destruct (IH [] Hw Ha); set_solver.
      * apply elem_of_cons in Hw as [->|Hw]; [by right|]. destruct (IH [] Hw Ha); set_solver.
    + destruct (IH _ Hw Ha) as [H|H]; set_solver.
Qed.

Lemma solution_moves_chars s t a :
  t ∈ solution_moves s -> a ∈ String.list_ascii_of_string t -> a ∈ String.list_ascii_of_string s.
Proof.
  unfold solution_moves, py_split, py_remove_char. intros Ht Ha.
  apply list_elem_of_filter in Ht as [_ Ht]. apply list_elem_of_fmap in Ht as (w & -> & Hw).
  rewrite String.list_ascii_of_string_of_list_ascii in Ha.
  destruct (split_go_chars _ _ _ _ Hw Ha) as [H|H]; [|set_solver].
  rewrite !String.list_ascii_of_string_of_list_ascii in H.
  by apply list_elem_of_filter in H as [_ H]; apply list_elem_of_filter in H as [_ H].
Qed.

(** A move is read only from a token whose second character is a
    direction digit. *)
Lemma readable_move_digit move r :
  readable_move move = Some r ->
  exists d, d ∈ String.list_ascii_of_string move /\ d ∈ ["1"; "2"; "3"]%char.
Proof.
  unfold readable_move. case_decide; [|done].
  destruct (String.get 0 move); [|done]. destruct (String.get 1 move) as [d|] eqn:E1; [|done].
  destruct (dict_get face_names _); [|done]. destruct (dict_get directions _) eqn:Ed; [|done].
  intros _. exists d. split; [rewrite string_get_list in E1; by eapply list_elem_of_lookup_2|].
  apply dict_get_Some_elem in Ed. cbn in Ed.
  repeat (apply elem_of_cons in Ed as [Ed|Ed]; [injection Ed as ->; set_solver|]). set_solver.
Qed.

(** ** Properties *)

(** C25.  The formatter reads the solver's output format: for the moves
    [ms] written as face letter and digit, separated by spaces and
    followed by the count in parentheses (["U1 R2 F3 (3f)"]), it returns
    one entry per move, in order, "<face name> <direction>"; the count is
    dropped. *)
Theorem convert_solver_output (ms : list (sface * turn)) (d : string) :
  d <> "" -> Forall (λ a, is_digit a = true) (String.list_ascii_of_string d) ->
  convert_solution_to_readable
    (String.concat " " (move_token <$> ms) +:+ " (" +:+ d +:+ "f)") = render <$> ms.
Proof.
  intros Hne Hd. unfold convert_solution_to_readable, solution_moves, py_remove_char, py_split.
  autorewrite with rcsolver. cbn [String.list_ascii_of_string app].
  rewrite remove_parens by (apply tokens_no_paren || by apply digits_no_paren).
  rewrite join_list_concat. change (" "%char :: ?w) with (sp :: w).
  rewrite split_go_join; [|apply tokens_words | apply digits_word; [by destruct d | done]].
  rewrite fmap_app, string_of_list_fmap, filter_app.
  rewrite filter_none by (apply Forall_fmap, Forall_forall; intros m _; apply move_token_not_f).
  cbn [fmap list_fmap]. rewrite filter_cons_False by (rewrite endswith_f_word; discriminate).
  rewrite app_nil_r. apply omap_tokens.
Qed.

Lemma convert_solver_output_witness :
  convert_solution_to_readable
    (String.concat " " (move_token <$> [(FaceU, Quarter); (FaceR, Half); (FaceF, CounterQuarter)])
     +:+ " (" +:+ "3" +:+ "f)") =
  render <$> [(FaceU, Quarter); (FaceR, Half); (FaceF, CounterQuarter)].
Proof. apply convert_solver_output; [discriminate | repeat constructor]. Defined.

(** C26.  A solver answer with no digit 1, 2 or 3, such as the text
    "Error: Some edges are undefined." returned in place of a solution,
    has no token a direction can be read from: the formatter returns no
    move and the printed block is exactly the title between rules and
    "Total moves: 0".  Nothing raises, so the handler of line 222 is not
    reached. *)
Theorem convert_error_message (s : string) :
  Forall (λ a, a ∉ ["1"; "2"; "3"]%char) (String.list_ascii_of_string s) ->
  convert_solution_to_readable s = [] /\
  print_readable_solution s = [nl +:+ rule; "RUBIK'S CUBE SOLUTION"; rule; rule; "Total moves: 0"; rule].
Proof.
  intros Hs.
  assert (Hc : convert_solution_to_readable s = []).
  { apply omap_all_None. intros t Ht. destruct (readable_move t) as [r|] eqn:E; [|done].
    destruct (readable_move_digit t r E) as (d & Hd & Hd3). rewrite Forall_forall in Hs.
    by destruct (Hs d (solution_moves_chars s t d Ht Hd)). }
  split; [done|]. unfold print_readable_solution. by rewrite Hc.
Qed.

Lemma convert_error_message_witness :
  convert_solution_to_readable "Error: Some edges are undefined." = [] /\
  print_readable_solution "Error: Some edges are undefined." =
    [nl +:+ rule; "RUBIK'S CUBE SOLUTION"; rule; rule; "Total moves: 0"; rule].
Proof. apply convert_error_message. apply (bool_decide_unpack _). vm_compute. reflexivity. Defined.

End Formatter.
