(* ===== verification/Pipeline.v ===== *)
(** * Pipeline: the whole of [flexible_cube_scanner] (src/RCsolver.py,
    lines 152-226 and the call at line 283)

    After the scan loop ([Orchestrator.scan_loop]) and the assembly of
    the facelet string ([Orchestrator.assemble_cube_string]) the program
    prints the cube, and in a [try] block translates it to the solver
    palette ([Palette.colorconvert], which prints its result, line 20),
    calls the solver [sv.solve(converted_string, 20, 3)] and prints the
    formatted solution ([Formatter.print_readable_solution]).  Any
    exception of that block is caught, printed, and followed by "cube
    state might be invalid".  The function returns the facelet string.

    The solver is an external library: the class [Solver] gives its
    answer or the exception it raises.  The loop may wait for the
    operator ([RunWaiting]) or let an exception of the capture session
    propagate ([RunRaised]): that call is outside the [try]. *)

From S2P Require Import Prelude.
From S2P Require Import PaletteTranslator FaceIdentifier ScanOrchestrator SolutionFormatter.
From S2P Require Import FaceSampler CaptureSession.

Module Pipeline.

Import Palette Identify Orchestrator Formatter Sampler Capture.

(** [twophase.solver.solve(cubestring, max_length, timeout)] *)
Class Solver := solve : string -> Z -> Z -> pyres string.

(** [str(e)] of the exceptions the [try] block can catch: the IndexError
    of [colorstring[i]] and the solver's own.  KeyError and TypeError do
    not arise in the block. *)
Definition exc_message (e : py_exc) : string :=
  match e with
  | IndexError => "string index out of range"
  | KeyError => "KeyError"
  | TypeError => "TypeError"
  | SolverError msg => msg
  end.

Section Run.
Context `{Solver}.

(** Lines 214-224: the lines printed by the [try] block. *)
Definition solve_block (cube_string : string) : list string :=
  let handler e := ["error solving: " +:+ exc_message e; "cube state might be invalid"] in
  match colorconvert cube_string with
  | inl e => handler e
  | inr converted_string =>
      [converted_string; "converted: " +:+ converted_string] ++
      match solve converted_string 20 3 with
      | inl e => handler e
      | inr solution => [nl +:+ "raw solution: " +:+ solution] ++ print_readable_solution solution
      end
  end.

(** Lines 201-226: assembly (which prints the cube, line 212) and the
    [try] block. *)
Definition finish_scan (st : scan_state) : pyres (string * list string) :=
  r <-! assemble_cube_string st ;;
  let '(cube_string, lines) := r in
  pret (cube_string, lines ++ solve_block cube_string).

Inductive run_result :=
| RunReturned (cube : string) (out : list string)
| RunWaiting (out : list string)
| RunRaised (e : py_exc) (out : list string).

Definition flexible_cube_scanner {Inp} `{FaceScanner Inp} (inputs : list Inp) : run_result :=
  match scan_loop init_state inputs with
  | LoopDone st _ =>
      match finish_scan st with
      | inl e => RunRaised e (out st)
      | inr (cube, lines) => RunReturned cube lines
      end
  | LoopBlocked st => RunWaiting (out st)
  | LoopCrash e st => RunRaised e (out st)
  end.

End Run.

(** Line 283: the script calls [flexible_cube_scanner()] with the real
    capture session ([Capture.session_scanner]) behind the scan loop. *)
Definition main `{Canvas} `{Solver} (inputs : list session_input) : run_result :=
  flexible_cube_scanner inputs.

(** ** Lemmas *)

Lemma colorconvert_wf_get (s : string) :
  well_formed_colors s ->
  exists t, colorconvert s = inr t /\ String.length t = 54%nat /\
    forall i, String.get i t = String.get i s ≫= convert_letter.
Proof.
  intros Hwf. rewrite colorconvert_wf_list by done. eexists; split; [done|].
  destruct Hwf as [Hlen Hpal]. destruct (omap_convert_palette _ Hpal) as [Hl Hget].
  rewrite string_length_list. autorewrite with rcsolver.
  split; [by rewrite Hl, <- string_length_list|].
  intros i. rewrite !string_get_list. autorewrite with rcsolver. apply Hget.
Qed.

Lemma finish_scan_eq `{Solver} st cube lines :
  assemble_cube_string st = inr (cube, lines) ->
  finish_scan st = inr (cube, lines ++ solve_block cube).
Proof. intros Ha. unfold finish_scan. by rewrite Ha. Qed.

(** The solver letter of each slot's centre, in the order of assembly. *)
Lemma slot_solver_letter k f :
  all_slots !! k = Some f -> Some (solver_char (slot_color f)) = String.get k "URFDLB".
Proof.
  intros Hf. destruct k as [|[|[|[|[|[|k]]]]]]; cbn in Hf; (discriminate || (injection Hf as <-; reflexivity)).
Qed.

(** A loop that ends leaves a state the tail completes without raising. *)
Lemma loop_done_finish {Inp} `{FaceScannerOk Inp} `{Solver} (inputs : list Inp) st rest :
  scan_loop init_state inputs = LoopDone st rest ->
  exists cube lines, finish_scan st = inr (cube, lines) /\ well_formed_colors cube /\
    forall k f, all_slots !! k = Some f -> String.get (9 * k + 4) cube = Some (color_char (slot_color f)).
Proof.
  intros Hrun. destruct (scan_loop_keeps_inv init_state inputs init_state_inv) as (_ & Hdone & _).
  destruct (Hdone st rest Hrun) as [Hinv Hlen].
  destruct (assemble_cube_string_spec st Hinv Hlen) as (cube & lines & Ha & Hwf & Hc).
  rewrite (finish_scan_eq st cube lines Ha). eauto.
Qed.

(** ** Properties *)

(** C27.  End to end, for any capture session that keeps its promise and
    any solver: the program returns a well-formed facelet string whose
    centres are the slots' colours in the order TOP, RIGHT, FRONT,
    BOTTOM, LEFT, BACK, or waits for the operator, or raises an
    exception that a capture session raised; nothing the assembly, the
    translation or the solver does escapes. *)
Theorem flexible_cube_scanner_safe {Inp} `{FaceScannerOk Inp} `{Solver} (inputs : list Inp) :
  match flexible_cube_scanner inputs with
  | RunReturned cube _ =>
      well_formed_colors cube /\
      forall k f, all_slots !! k = Some f -> String.get (9 * k + 4) cube = Some (color_char (slot_color f))
  | RunRaised e _ => exists i, i ∈ inputs /\ scan_face i = inl e
  | RunWaiting _ => True
  end.
Proof.
  unfold flexible_cube_scanner.
  destruct (scan_loop init_state inputs) as [st rest|st|e st] eqn:Hrun; [|done|].
  - by destruct (loop_done_finish inputs st rest Hrun) as (cube & lines & -> & Hwf & Hc).
  - exact (scan_loop_raise_source init_state inputs e st init_state_inv Hrun).
Qed.

(** A solver that answers a 54-letter string with two moves. *)
#[local] Instance stub_solver : Solver := λ s _ _,
  if decide (String.length s = 54%nat) then inr "U1 R2 (2f)" else inl (SolverError "invalid cube").

Lemma flexible_cube_scanner_safe_witness :
  match flexible_cube_scanner six_faces_run with
  | RunReturned cube _ =>
      well_formed_colors cube /\
      forall k f, all_slots !! k = Some f -> String.get (9 * k + 4) cube = Some (color_char (slot_color f))
  | RunRaised e _ => exists i, i ∈ six_faces_run /\ scan_face i = inl e
  | RunWaiting _ => True
  end.
Proof. exact (@flexible_cube_scanner_safe stub_attempt stub_scanner stub_scanner_ok stub_solver six_faces_run). Defined.

(** C28.  What the solver is given: after a complete scan the facelet
    string translates without error into 54 letters of the solver
    palette whose centres read U, R, F, D, L, B in that order, the
    centre layout the solver's facelet format requires. *)
Theorem solver_input_centres st :
  scan_inv st -> length (all_faces st) = 6%nat ->
  exists cube lines converted, assemble_cube_string st = inr (cube, lines) /\
    colorconvert cube = inr converted /\ String.length converted = 54%nat /\
    forall k, (k < 6)%nat -> String.get (9 * k + 4) converted = String.get k "URFDLB".
Proof.
  intros Hinv Hlen.
  destruct (assemble_cube_string_spec st Hinv Hlen) as (cube & lines & Ha & Hwf & Hc).
  destruct (colorconvert_wf_get cube Hwf) as (t & Ht & Htl & Hget).
  exists cube, lines, t. repeat split; [done | done | done |].
  intros k Hk. destruct (lookup_lt_is_Some_2 all_slots k ltac:(cbn; lia)) as [f Hf].
  rewrite Hget, (Hc k f Hf). cbn [mbind option_bind].
  rewrite convert_letter_color. by apply slot_solver_letter.
Qed.

Lemma solver_input_centres_witness :
  exists cube lines converted, assemble_cube_string solved_state = inr (cube, lines) /\
    colorconvert cube = inr converted /\ String.length converted = 54%nat /\
    forall k, (k < 6)%nat -> String.get (9 * k + 4) converted = String.get k "URFDLB".
Proof. apply solver_input_centres; [apply solved_state_inv | reflexivity]. Defined.

Example six_faces_solved :
  match flexible_cube_scanner six_faces_run with
  | RunReturned _ lines => bool_decide ("Total moves: 2" ∈ lines)
  | _ => false
  end = true.
Proof. vm_compute. reflexivity. Qed.

(** C30.  Composition with the real capture session: when the script
    runs ([main], line 283), the only exception that reaches it is
    the IndexError of sampling a frame too small for the grid (fewer
    than 140 rows or 201 columns); with frames of a usual camera size
    the program never raises. *)
Theorem program_raises_small_frame `{CanvasOk} `{Solver} (inputs : list session_input) :
  match main inputs with
  | RunRaised e _ => e = IndexError /\
      exists inp fr key, inp ∈ inputs /\ (fr, key) ∈ reads inp /\ (height fr < 140 \/ width fr < 201)%Z
  | _ => True
  end.
Proof.
  unfold main, flexible_cube_scanner.
  destruct (scan_loop init_state inputs) as [st rest|st|e st] eqn:Hrun; [|done|].
  - by destruct (loop_done_finish inputs st rest Hrun) as (cube & lines & -> & _).
  - destruct (scan_loop_raise_source init_state inputs e st init_state_inv Hrun) as (inp & Hin & Hi).
    destruct (session_scanner_inl inp e Hi) as (fr & key & Hfr & Hs).
    destruct (sample_grid_error fr e Hs) as [-> Hsmall].
    split; [done|]. exists inp, fr, key. done.
Qed.

Lemma program_raises_small_frame_witness :
  match main [mk_input true [(small_frame, 32%Z)]] with
  | RunRaised e _ => e = IndexError /\
      exists inp fr key, inp ∈ [mk_input true [(small_frame, 32%Z)]] /\ (fr, key) ∈ reads inp /\
        (height fr < 140 \/ width fr < 201)%Z
  | _ => True
  end.
Proof.
  exact (@program_raises_small_frame paint_canvas paint_canvas_ok stub_solver
           [mk_input true [(small_frame, 32%Z)]]).
Defined.

(** C34.  Liveness of the whole script: when every frame the camera
    delivers is at least 140 rows by 201 columns and, for every slot,
    some attempt shows a face of that slot, the program ends
    ([main] returns) with a well-formed facelet string. *)
Theorem program_completes `{CanvasOk} `{Solver} (inputs : list session_input) :
  (forall inp fr key, inp ∈ inputs -> (fr, key) ∈ reads inp -> (140 <= height fr /\ 201 <= width fr)%Z) ->
  (forall f, exists inp, inp ∈ inputs /\ shows inp f) ->
  exists cube out, main inputs = RunReturned cube out /\ well_formed_colors cube.
Proof.
  intros Hsize Hcov. unfold main, flexible_cube_scanner.
  assert (Hok : forall i, i ∈ inputs -> exists r, scan_face i = inr r).
  { intros i Hi. destruct (scan_face i) as [e|r] eqn:E; [exfalso|eauto].
    destruct (session_scanner_inl i e E) as (fr & key & Hin & Hs).
    destruct (sample_grid_error fr e Hs) as [_ Hsm].
    specialize (Hsize i fr key Hi Hin). lia. }
  destruct (scan_loop_complete_run init_state inputs init_state_inv Hok (λ f, or_intror (Hcov f)))
    as (st & rest & Hrun & _).
  rewrite Hrun. destruct (loop_done_finish inputs st rest Hrun) as (cube & lines & -> & Hwf & _).
  eauto.
Qed.

(** A frame of one colour. *)
Definition uniform_frame (px : Z * Z * Z) : frame := mk_frame 480 640 (λ _ _, px).

(** An attempt that captures a uniform frame and confirms it. *)
Definition capture_confirm (px : Z * Z * Z) : session_input :=
  mk_input true [(uniform_frame px, 32%Z); (uniform_frame px, 13%Z)].

Definition six_sessions : list session_input :=
  capture_confirm <$> [(255, 255, 255); (255, 0, 0); (0, 0, 255); (0, 255, 255); (0, 255, 0); (0, 165, 255)]%Z.

Lemma program_completes_witness :
  exists cube out, main six_sessions = RunReturned cube out /\ well_formed_colors cube.
Proof.
  apply (@program_completes paint_canvas paint_canvas_ok stub_solver six_sessions).
  - intros inp fr key Hin Hfr. apply list_elem_of_In in Hin. cbn in Hin.
    repeat destruct Hin as [<-|Hin]; try contradiction;
      apply list_elem_of_In in Hfr; cbn in Hfr;
      repeat destruct Hfr as [Hfr|Hfr]; try contradiction; injection Hfr as <- _; cbn; lia.
  - intros f.
    destruct f;
      [ exists (capture_confirm (255, 255, 255)%Z); split; [apply list_elem_of_In; cbn; tauto|];
        exists ["captured: WWWWWWWWW"], (replicate 9 "W"), White
      | exists (capture_confirm (255, 0, 0)%Z); split; [apply list_elem_of_In; cbn; tauto|];
        exists ["captured: BBBBBBBBB"], (replicate 9 "B"), Blue
      | exists (capture_confirm (0, 0, 255)%Z); split; [apply list_elem_of_In; cbn; tauto|];
        exists ["captured: RRRRRRRRR"], (replicate 9 "R"), Red
      | exists (capture_confirm (0, 255, 255)%Z); split; [apply list_elem_of_In; cbn; tauto|];
        exists ["captured: YYYYYYYYY"], (replicate 9 "Y"), Yellow
      | exists (capture_confirm (0, 255, 0)%Z); split; [apply list_elem_of_In; cbn; tauto|];
        exists ["captured: GGGGGGGGG"], (replicate 9 "G"), Green
      | exists (capture_confirm (0, 165, 255)%Z); split; [apply list_elem_of_In; cbn; tauto|];
        exists ["captured: OOOOOOOOO"], (replicate 9 "O"), Orange ];
      (split; [vm_compute; reflexivity | split; reflexivity]).
Defined.

End Pipeline.
